(** * WAL records processor: parsing, indexing and the multi-hop join

    A shallow embedding of [wal_records_processor.py]: the row model
    ([WALRow] and its four variants), the row parser ([WALRow.from_dict],
    [WALRow.transform_to_dict_if_json]), the index builder
    ([WalRecordsProcessor.load]) and the join engine
    ([WalRecordsProcessor.merge_insertable_rows]).

    Python objects are modelled by the inductive [value]; a Python exception
    is the [Raise] branch of [result]; a [dict] whose iteration order is never
    observed is a [gmap]. *)

From Stdlib Require Import ZArith Ascii String List.
From stdpp Require Import base option list gmap strings fin_maps.

Set Warnings "-register-all,-clear-no-such-hyp".

Local Open Scope string_scope.
Local Open Scope Z_scope.

(** ** Python values and exceptions *)

(** The values [json.load] produces.  A float is kept as the literal it was
    read from: no arithmetic is ever done on column values, and the number
    the literal denotes matters only where a float is a dict key (see
    [float_key]). *)
Inductive value : Type :=
| VNone
| VBool (b : bool)
| VInt (z : Z)
| VFloat (literal : string)
| VStr (s : string)
| VList (items : list value)
| VDict (members : list (string * value)).

(** The exceptions the modelled code can raise.  [MalformedRecordError] is
    the name the specification uses; no statement of the source raises it. *)
Inductive exn : Type :=
| JSONDecodeError
| TypeError
| ValueError
| RecursionError
| IndexError
| MalformedRecordError.

Inductive result (A : Type) : Type :=
| Ok (a : A)
| Raise (e : exn).
Arguments Ok {A} a.
Arguments Raise {A} e.

(** Sequencing: the first exception ends the computation. *)
#[global] Instance result_ret : MRet result := λ A a, Ok a.
#[global] Instance result_bind : MBind result := λ A B k r,
  match r with
  | Ok a => k a
  | Raise e => Raise e
  end.

Definition raises {A : Type} (r : result A) : Prop :=
  match r with Ok _ => False | Raise _ => True end.

(** [for x in xs: acc = f(acc, x)], stopping at the first exception. *)
Fixpoint for_each {S A : Type} (f : S → A → result S) (xs : list A) (s : S)
  : result S :=
  match xs with
  | [] => Ok s
  | x :: xs' => s' ← f s x; for_each f xs' s'
  end.

(** [[f(x) for x in xs]]. *)
Fixpoint list_comprehension {A B : Type} (f : A → result B) (xs : list A)
  : result (list B) :=
  match xs with
  | [] => Ok []
  | x :: xs' =>
      y ← f x; ys ← list_comprehension f xs'; Ok (y :: ys)
  end.

(** ** The interpreter

    Two settings of the running interpreter decide what [json.loads] does
    with a document that is well formed: the most digits [int] converts
    from text ([sys.get_int_max_str_digits()], 0 for no limit), and the
    number of containers that can be open inside one another when the
    decoder is called from [transform_to_dict_if_json], which is what the
    recursion limit leaves at that call. *)
Class Interpreter : Type := {
  int_max_str_digits : nat;
  max_nesting : nat
}.

(** ** [json.loads]

    The decoder of Python's standard library, for a [str] argument, as one
    pass over the characters: a scanner that hands each token it completes
    to a stack automaton, so that the first thing wrong with the document,
    in reading order, decides the exception.  A document that is not JSON is
    a [JSONDecodeError]; an integer literal with more digits than [int]
    converts is a [ValueError]; a container opened below [max_nesting] others
    is a [RecursionError].  A [str] is its UTF-8 bytes and a float is the
    literal it is written with. *)

Module Json.

Inductive token : Type :=
| TLBrace | TRBrace | TLBracket | TRBracket | TColon | TComma
| TString (s : string)
| TInt (z : Z)
| TFloat (literal : string)
| TTrue | TFalse | TNull.

(** One element of a string under construction: a byte of the input, or
    the code unit of a [\uXXXX] escape. *)
Inductive piece : Type :=
| Byte (c : ascii)
| Unit16 (n : N).

Inductive lex_state : Type :=
| LStart
| LString (acc : list piece)
| LEscape (acc : list piece)
| LUnicode (acc : list piece) (hex : list N)
| LNumber (acc : list ascii)
| LWord (acc : list ascii).

Definition code (c : ascii) : N := N_of_ascii c.

Definition is_ws (c : ascii) : bool :=
  let n := code c in
  ((n =? 32) || (n =? 9) || (n =? 10) || (n =? 13))%N.

Definition is_digit (c : ascii) : bool :=
  let n := code c in ((48 <=? n) && (n <=? 57))%N.

Definition is_letter (c : ascii) : bool :=
  let n := code c in
  (((65 <=? n) && (n <=? 90)) || ((97 <=? n) && (n <=? 122)))%N.

Definition is_numberish (c : ascii) : bool :=
  is_digit c ||
  match c with
  | "."%char | "e"%char | "E"%char | "+"%char | "-"%char => true
  | _ => false
  end.

Definition hex_digit (c : ascii) : option N :=
  let n := code c in
  if ((48 <=? n) && (n <=? 57))%N then Some (n - 48)%N
  else if ((97 <=? n) && (n <=? 102))%N then Some (n - 87)%N
  else if ((65 <=? n) && (n <=? 70))%N then Some (n - 55)%N
  else None.

Definition byte_of (n : N) : ascii := ascii_of_N n.

(** The double quote. *)
Definition quote : ascii := byte_of 34.

Definition is_quote (c : ascii) : bool := (code c =? 34)%N.

Definition utf8 (n : N) : list ascii :=
  (if n <? 128 then [byte_of n]
   else if n <? 2048 then
     [byte_of (192 + n / 64); byte_of (128 + n mod 64)]
   else if n <? 65536 then
     [byte_of (224 + n / 4096); byte_of (128 + (n / 64) mod 64);
      byte_of (128 + n mod 64)]
   else
     [byte_of (240 + n / 262144); byte_of (128 + (n / 4096) mod 64);
      byte_of (128 + (n / 64) mod 64); byte_of (128 + n mod 64)])%N.

(** The pieces of a string, in order, as bytes; an escaped high surrogate
    directly followed by an escaped low surrogate is one code point. *)
Fixpoint encode (ps : list piece) : list ascii :=
  match ps with
  | [] => []
  | Byte c :: ps' => c :: encode ps'
  | Unit16 hi :: ps' =>
      match ps' with
      | Unit16 lo :: ps'' =>
          if ((55296 <=? hi) && (hi <=? 56319) &&
              (56320 <=? lo) && (lo <=? 57343))%N
          then utf8 (65536 + (hi - 55296) * 1024 + (lo - 56320))%N
                 ++ encode ps''
          else utf8 hi ++ encode ps'
      | _ => utf8 hi ++ encode ps'
      end
  end.

Definition finish_string (acc : list piece) : token :=
  TString (string_of_list_ascii (encode (rev acc))).

Definition simple_escape (c : ascii) : option ascii :=
  if is_quote c then Some quote else
  match c with
  | "\"%char => Some "\"%char
  | "/"%char => Some "/"%char
  | "b"%char => Some (byte_of 8)
  | "f"%char => Some (byte_of 12)
  | "n"%char => Some (byte_of 10)
  | "r"%char => Some (byte_of 13)
  | "t"%char => Some (byte_of 9)
  | _ => None
  end.

Fixpoint skip_digits (cs : list ascii) : list ascii :=
  match cs with
  | c :: cs' => if is_digit c then skip_digits cs' else cs
  | [] => []
  end.

Definition digits1 (cs : list ascii) : option (list ascii) :=
  match cs with
  | c :: cs' => if is_digit c then Some (skip_digits cs') else None
  | [] => None
  end.

Definition unsigned (cs : list ascii) : list ascii :=
  match cs with "-"%char :: cs' => cs' | _ => cs end.

(** An optional minus sign, then a single zero or a digit other than zero
    followed by any digits: the input left after this integer part. *)
Definition int_part (cs : list ascii) : option (list ascii) :=
  match unsigned cs with
  | "0"%char :: cs' => Some cs'
  | c :: cs' => if is_digit c then Some (skip_digits cs') else None
  | [] => None
  end.

(** The optional fraction, a dot and at least one digit: whether it is
    there, and the input left after it. *)
Definition frac_part (cs : list ascii) : bool * list ascii :=
  match cs with
  | "."%char :: cs' =>
      match digits1 cs' with Some r => (true, r) | None => (false, cs) end
  | _ => (false, cs)
  end.

(** The optional exponent: [e] or [E], an optional sign, at least one
    digit. *)
Definition exp_part (cs : list ascii) : bool * list ascii :=
  match cs with
  | "e"%char :: cs' | "E"%char :: cs' =>
      let body :=
        match cs' with
        | "+"%char :: r | "-"%char :: r => r
        | _ => cs'
        end in
      match digits1 body with Some r => (true, r) | None => (false, cs) end
  | _ => (false, cs)
  end.

Fixpoint nat_of_digits (cs : list ascii) (acc : Z) : Z :=
  match cs with
  | c :: cs' => nat_of_digits cs' (10 * acc + Z.of_N (code c - 48))
  | [] => acc
  end.

Definition int_of (cs : list ascii) : Z :=
  match cs with
  | "-"%char :: cs' => - nat_of_digits cs' 0
  | _ => nat_of_digits cs 0
  end.

(** [int(text)] refuses a text of more than [int_max_str_digits] digits,
    the sign not counted; no text of 640 digits or fewer is refused, and a
    limit of 0 refuses none. *)
Definition int_refuses `{Interpreter} (digits : nat) : bool :=
  ((640 <? digits) && (0 <? int_max_str_digits)
   && (int_max_str_digits <? digits))%nat.

(** A lexeme as a number.  What counts is the longest head of it that is a
    number: the integer part, an optional fraction and an optional
    exponent.  With a fraction or an exponent the number is a float;
    otherwise it is converted by [int], which can refuse it.  Characters
    left after the number are characters no token can start with at that
    place. *)
Definition finish_number `{Interpreter} (acc : list ascii) : result token :=
  let cs := rev acc in
  match int_part cs with
  | None => Raise JSONDecodeError
  | Some r1 =>
      let '(f, r2) := frac_part r1 in
      let '(e, r3) := exp_part r2 in
      if f || e then
        match r3 with
        | [] => Ok (TFloat (string_of_list_ascii cs))
        | _ :: _ => Raise JSONDecodeError
        end
      else if int_refuses (length (unsigned cs) - length r1) then
        Raise ValueError
      else
        match r3 with
        | [] => Ok (TInt (int_of cs))
        | _ :: _ => Raise JSONDecodeError
        end
  end.

Definition finish_word (acc : list ascii) : result token :=
  let w := string_of_list_ascii (rev acc) in
  if String.eqb w "true" then Ok TTrue
  else if String.eqb w "false" then Ok TFalse
  else if String.eqb w "null" then Ok TNull
  else if String.eqb w "NaN" then Ok (TFloat "NaN")
  else if String.eqb w "Infinity" then Ok (TFloat "Infinity")
  else if String.eqb w "-Infinity" then Ok (TFloat "-Infinity")
  else Raise JSONDecodeError.

Definition punctuation (c : ascii) : option token :=
  match c with
  | "{"%char => Some TLBrace
  | "}"%char => Some TRBrace
  | "["%char => Some TLBracket
  | "]"%char => Some TRBracket
  | ":"%char => Some TColon
  | ","%char => Some TComma
  | _ => None
  end.

(** [d[k] = v] on the members of an object: a repeated key keeps its
    place and takes the later value. *)
Fixpoint set_member (ms : list (string * value)) (k : string) (v : value)
  : list (string * value) :=
  match ms with
  | [] => [(k, v)]
  | (k', v') :: ms' =>
      if String.eqb k' k then (k', v) :: ms'
      else (k', v') :: set_member ms' k v
  end.

Inductive frame : Type :=
| FArray (items : list value)
| FObject (members : list (string * value))
| FMember (members : list (string * value)) (key : string).

Inductive parse_state : Type :=
| PValue
| PArrayStart
| PObjectStart
| PKey
| PColon
| PAfter
| PDone (v : value).

(** A value is complete: it goes to the enclosing container. *)
Definition reduce (v : value) (stack : list frame)
  : result (parse_state * list frame) :=
  match stack with
  | [] => Ok (PDone v, [])
  | FArray items :: stack' => Ok (PAfter, FArray (v :: items) :: stack')
  | FMember ms k :: stack' =>
      Ok (PAfter, FObject (set_member ms k v) :: stack')
  | FObject _ :: _ => Raise JSONDecodeError
  end.

(** A container is opened inside those of [stack]. *)
Definition nest `{Interpreter} (st : parse_state) (f : frame)
    (stack : list frame) : result (parse_state * list frame) :=
  if (max_nesting <=? length stack)%nat then Raise RecursionError
  else Ok (st, f :: stack).

Definition open_value `{Interpreter} (t : token) (stack : list frame)
  : result (parse_state * list frame) :=
  match t with
  | TLBracket => nest PArrayStart (FArray []) stack
  | TLBrace => nest PObjectStart (FObject []) stack
  | TString s => reduce (VStr s) stack
  | TInt z => reduce (VInt z) stack
  | TFloat l => reduce (VFloat l) stack
  | TTrue => reduce (VBool true) stack
  | TFalse => reduce (VBool false) stack
  | TNull => reduce VNone stack
  | _ => Raise JSONDecodeError
  end.

Definition open_key (t : token) (stack : list frame)
  : result (parse_state * list frame) :=
  match t, stack with
  | TString k, FObject ms :: stack' => Ok (PColon, FMember ms k :: stack')
  | _, _ => Raise JSONDecodeError
  end.

Definition close (t : token) (stack : list frame)
  : result (parse_state * list frame) :=
  match t, stack with
  | TRBracket, FArray items :: stack' => reduce (VList (rev items)) stack'
  | TRBrace, FObject ms :: stack' => reduce (VDict ms) stack'
  | _, _ => Raise JSONDecodeError
  end.

Definition parse_step `{Interpreter} (st : parse_state) (t : token)
    (stack : list frame) : result (parse_state * list frame) :=
  match st with
  | PValue => open_value t stack
  | PArrayStart =>
      match t with
      | TRBracket => close t stack
      | _ => open_value t stack
      end
  | PObjectStart =>
      match t with
      | TRBrace => close t stack
      | _ => open_key t stack
      end
  | PKey => open_key t stack
  | PColon =>
      match t with
      | TColon => Ok (PValue, stack)
      | _ => Raise JSONDecodeError
      end
  | PAfter =>
      match t, stack with
      | TComma, FArray _ :: _ => Ok (PValue, stack)
      | TComma, FObject _ :: _ => Ok (PKey, stack)
      | _, _ => close t stack
      end
  | PDone _ => Raise JSONDecodeError
  end.

(** Where a value can start, and where a member's name can. *)
Definition expects_value (st : parse_state) : bool :=
  match st with
  | PValue | PArrayStart => true
  | _ => false
  end.

Definition expects_key (st : parse_state) : bool :=
  match st with
  | PObjectStart | PKey => true
  | _ => false
  end.

(** The decoder between two characters: the lexeme being read, and the
    automaton with its open containers. *)
Record decoder : Type := mk {
  lexeme : lex_state;
  state : parse_state;
  stack : list frame
}.

(** A completed token goes to the automaton. *)
Definition shift `{Interpreter} (st : parse_state) (t : token)
    (stack : list frame) : result decoder :=
  '(st', stack') ← parse_step st t stack; Ok (mk LStart st' stack').

(** A character met between two tokens.  A number, a word or a string is
    entered only where the automaton can take it. *)
Definition start `{Interpreter} (c : ascii) (st : parse_state)
    (stack : list frame) : result decoder :=
  if is_ws c then Ok (mk LStart st stack)
  else if is_digit c || Ascii.eqb c "-"%char then
    if expects_value st then Ok (mk (LNumber [c]) st stack)
    else Raise JSONDecodeError
  else if is_letter c then
    if expects_value st then Ok (mk (LWord [c]) st stack)
    else Raise JSONDecodeError
  else if is_quote c then
    if expects_value st || expects_key st then Ok (mk (LString []) st stack)
    else Raise JSONDecodeError
  else
    match punctuation c with
    | Some t => shift st t stack
    | None => Raise JSONDecodeError
    end.

(** A minus sign and nothing after it yet: the start of [-Infinity]. *)
Definition lone_minus (acc : list ascii) : bool :=
  match acc with
  | ["-"%char] => true
  | _ => false
  end.

Definition step `{Interpreter} (d : decoder) (c : ascii) : result decoder :=
  let '(mk lx st stack) := d in
  match lx with
  | LStart => start c st stack
  | LString acc =>
      if is_quote c then shift st (finish_string acc) stack
      else if Ascii.eqb c "\"%char then Ok (mk (LEscape acc) st stack)
      else if (code c <? 32)%N then Raise JSONDecodeError
      else Ok (mk (LString (Byte c :: acc)) st stack)
  | LEscape acc =>
      if Ascii.eqb c "u"%char then Ok (mk (LUnicode acc []) st stack)
      else
        match simple_escape c with
        | Some b => Ok (mk (LString (Byte b :: acc)) st stack)
        | None => Raise JSONDecodeError
        end
  | LUnicode acc hex =>
      match hex_digit c with
      | None => Raise JSONDecodeError
      | Some h =>
          match hex with
          | [h2; h1; h0] =>
              let n := (((h0 * 16 + h1) * 16 + h2) * 16 + h)%N in
              Ok (mk (LString (Unit16 n :: acc)) st stack)
          | _ => Ok (mk (LUnicode acc (h :: hex)) st stack)
          end
      end
  | LNumber acc =>
      if is_numberish c then Ok (mk (LNumber (c :: acc)) st stack)
      else if lone_minus acc then
        if is_letter c then Ok (mk (LWord (c :: acc)) st stack)
        else Raise JSONDecodeError
      else
        t ← finish_number acc;
        d' ← shift st t stack;
        start c (state d') (Json.stack d')
  | LWord acc =>
      if is_letter c then Ok (mk (LWord (c :: acc)) st stack)
      else
        t ← finish_word acc;
        d' ← shift st t stack;
        start c (state d') (Json.stack d')
  end.

(** The end of the document: a number or a word being read is complete,
    and the automaton must hold the one value of the document. *)
Definition finish `{Interpreter} (d : decoder) : result value :=
  let '(mk lx st stack) := d in
  d' ← match lx with
       | LStart => Ok d
       | LNumber acc => t ← finish_number acc; shift st t stack
       | LWord acc => t ← finish_word acc; shift st t stack
       | _ => Raise JSONDecodeError
       end;
  match state d' with
  | PDone v => Ok v
  | _ => Raise JSONDecodeError
  end.

Fixpoint run `{Interpreter} (d : decoder) (s : string) : result value :=
  match s with
  | String c s' => d' ← step d c; run d' s'
  | EmptyString => finish d
  end.

Definition decode `{Interpreter} (s : string) : result value :=
  run (mk LStart PValue []) s.

(** [json.loads(value)]: a [TypeError] for an argument that is not a
    [str], and for a [str] what the decoder does with it. *)
Definition loads `{Interpreter} (v : value) : result value :=
  match v with
  | VStr s => decode s
  | _ => Raise TypeError
  end.

End Json.

(** ** Dictionaries *)

(** [d.get(k)]: [None] when the key is absent. *)
Definition dict_get (d : gmap string value) (k : string) : value :=
  default VNone (d !! k).

(** [d.update(other)]: the entries of [other] replace those of [d]. *)
Definition dict_update (d other : gmap string value) : gmap string value :=
  other ∪ d.

(** [dict(pairs)]: the pairs are inserted in order, a later pair with the
    same key replaces the earlier one. *)
Definition dict_of_pairs (pairs : list (string * value)) : gmap string value :=
  foldl (λ d kv, <[kv.1 := kv.2]> d) ∅ pairs.

(** The keys of the three Row Indexes.  Python compares keys with [==] after
    hashing, and numbers compare by value: [True], [1] and [1.0] are one
    key, the text [1] is another.  [KInt] is a number that is an integer,
    whatever its type; [KFloat m e] is the float [m * 2^e] with [m] odd and
    [e] negative, a float that is no integer; the decoder has one [NaN]
    object, which is found again by identity. *)
Inductive key : Type :=
| KNone
| KInt (z : Z)
| KFloat (mantissa exponent : Z)
| KInfinity (negative : bool)
| KNaN
| KStr (s : string).

#[global] Instance key_eq_dec : EqDecision key.
Proof. solve_decision. Defined.

#[global] Instance key_countable : Countable key.
Proof.
  refine (inj_countable'
    (λ k, match k with
          | KNone => inl (inl ())
          | KNaN => inl (inr None)
          | KInfinity b => inl (inr (Some b))
          | KInt z => inr (inl z)
          | KFloat m e => inr (inr (inl (m, e)))
          | KStr s => inr (inr (inr s))
          end)
    (λ x, match x with
          | inl (inl _) => KNone
          | inl (inr None) => KNaN
          | inl (inr (Some b)) => KInfinity b
          | inr (inl z) => KInt z
          | inr (inr (inl (m, e))) => KFloat m e
          | inr (inr (inr s)) => KStr s
          end) _).
  by intros [].
Defined.

(** *** The number a float literal denotes

    [float(text)] is the binary64 number nearest to the decimal number the
    text writes, a tie going to the even mantissa; the decimal number is
    [d * 10^e] below. *)

(** The digits at the head of [cs], and what follows them. *)
Fixpoint span_digits (cs : list ascii) : list ascii * list ascii :=
  match cs with
  | c :: cs' =>
      if Json.is_digit c then
        let '(ds, r) := span_digits cs' in (c :: ds, r)
      else ([], cs)
  | [] => ([], [])
  end.

(** A float literal as sign, digits and power of ten; [None] for a text
    that is not a decimal number. *)
Definition decimal (literal : string) : option (bool * Z * Z) :=
  let cs := list_ascii_of_string literal in
  let negative := match cs with "-"%char :: _ => true | _ => false end in
  let '(int_digits, r1) := span_digits (Json.unsigned cs) in
  let '(frac_digits, r2) :=
    match r1 with
    | "."%char :: r => span_digits r
    | _ => ([], r1)
    end in
  let exponent :=
    match r2 with
    | [] => Some 0
    | "e"%char :: r | "E"%char :: r =>
        let '(sign, r') :=
          match r with
          | "-"%char :: x => (-1, x)
          | "+"%char :: x => (1, x)
          | _ => (1, r)
          end in
        match span_digits r' with
        | (c :: ds, []) => Some (sign * Json.nat_of_digits (c :: ds) 0)
        | _ => None
        end
    | _ => None
    end in
  match int_digits, exponent with
  | _ :: _, Some e =>
      Some (negative, Json.nat_of_digits (int_digits ++ frac_digits) 0,
            e - Z.of_nat (length frac_digits))
  | _, _ => None
  end.

(** The integer nearest to [n / d], a tie going to the even one. *)
Definition round_half_even (n d : Z) : Z :=
  let q := n / d in
  let r := n mod d in
  if 2 * r <? d then q
  else if d <? 2 * r then q + 1
  else if Z.even q then q else q + 1.

(** [n / d] divided by [2^e], as a fraction of integers. *)
Definition scaled (n d e : Z) : Z * Z :=
  if 0 <=? e then (n, d * 2 ^ e) else (n * 2 ^ (- e), d).

(** The binary64 number nearest to [n / d], for [n] and [d] positive, as
    [m * 2^e] with [m] below [2^53] and [e] no less than [-1074], the
    exponent of the subnormal numbers; [None] when that number is beyond
    the largest float, which makes an infinity. *)
Definition binary64 (n d : Z) : option (Z * Z) :=
  let l := Z.log2 n - Z.log2 d in
  let '(a, b) := scaled n d l in
  let magnitude := if b <=? a then l else l - 1 in
  let e := Z.max (magnitude - 52) (-1074) in
  let '(a', b') := scaled n d e in
  let m := round_half_even a' b' in
  if (0 <? m) && (1024 <=? e + Z.log2 m) then None else Some (m, e).

(** The key of the finite float [m * 2^e], [m] not zero. *)
Definition dyadic_key (m e : Z) : key :=
  if 0 <=? e then KInt (m * 2 ^ e)
  else
    let g := Z.gcd m (2 ^ (- e)) in
    if g =? 2 ^ (- e) then KInt (m / g)
    else KFloat (m / g) (e + Z.log2 g).

(** The key of a float.  Both zeros are the integer 0.  A power of ten
    above [10^308] is beyond the largest float whatever the digits, and a
    number below [2^(-1075)] is nearer to zero than to any other float:
    these two cases are settled without computing the power. *)
Definition float_key (literal : string) : key :=
  if String.eqb literal "Infinity" then KInfinity false
  else if String.eqb literal "-Infinity" then KInfinity true
  else
    match decimal literal with
    | None => KNaN
    | Some (negative, d, e) =>
        if d =? 0 then KInt 0
        else if 308 <? e then KInfinity negative
        else if 3 * e + Z.log2 d + 1 <=? -1075 then KInt 0
        else
          let '(n, q) :=
            if 0 <=? e then (d * 10 ^ e, 1) else (d, 10 ^ (- e)) in
          match binary64 n q with
          | None => KInfinity negative
          | Some (m, x) =>
              if m =? 0 then KInt 0
              else dyadic_key (if negative then - m else m) x
          end
    end.

(** [hash(v)]: lists and dicts are unhashable. *)
Definition hash_key (v : value) : result key :=
  match v with
  | VNone => Ok KNone
  | VBool b => Ok (KInt (if b then 1 else 0))
  | VInt z => Ok (KInt z)
  | VFloat l => Ok (float_key l)
  | VStr s => Ok (KStr s)
  | VList _ | VDict _ => Raise TypeError
  end.

Definition hashable (v : value) : bool :=
  match v with
  | VList _ | VDict _ => false
  | _ => true
  end.

(** [index.get(v)] and [index[v] = x] on a dict keyed by column values. *)
Definition index_get {A : Type} (index : gmap key A) (v : value)
  : result (option A) :=
  k ← hash_key v; Ok (index !! k).

Definition index_set {A : Type} (index : gmap key A) (v : value) (x : A)
  : result (gmap key A) :=
  k ← hash_key v; Ok (<[k := x]> index).

(** [xs.index(x)]: the first position of [x], a [ValueError] without one. *)
Fixpoint list_index (xs : list string) (x : string) : result nat :=
  match xs with
  | [] => Raise ValueError
  | y :: xs' =>
      if String.eqb y x then Ok 0%nat
      else i ← list_index xs' x; Ok (S i)
  end.

(** [xs[i]] for [i >= 0]: an [IndexError] out of range. *)
Definition list_item {A : Type} (xs : list A) (i : nat) : result A :=
  match xs !! i with
  | Some x => Ok x
  | None => Raise IndexError
  end.

(** [s.split(".")] and [s.split(".")[-1]]. *)
Fixpoint split_dot (s : string) : list string :=
  match s with
  | EmptyString => [EmptyString]
  | String c s' =>
      if Ascii.eqb c "."%char then EmptyString :: split_dot s'
      else
        match split_dot s' with
        | part :: parts => String c part :: parts
        | [] => [String c EmptyString]
        end
  end.

Definition last_segment (s : string) : string :=
  List.last (split_dot s) EmptyString.

(** ** The row model *)

(** The element of a record's ["change"] list.  The documents considered
    are those whose elements have the six fields read by [from_dict], the
    table name being a [str], [columnnames] a list of [str] and
    [columnvalues] a list: what the code does with any other document is
    not part of the model. *)
Module Change.
Record t : Type := mk {
  kind : value;
  schema : value;
  table : string;
  columnnames : list string;
  columntypes : list value;
  columnvalues : list value
}.
End Change.

Module WALRow.

Record t : Type := mk {
  kind : value;
  schema : value;
  table : string;
  column_names : list string;
  column_types : list value;
  column_values : list value;
  column_names_values : gmap string value
}.

(** The [try] around [json.loads]: a [JSONDecodeError] or a [TypeError]
    leaves the value as it was, any other exception passes through. *)
Definition transform_to_dict_if_json `{Interpreter} (v : value)
  : result value :=
  match Json.loads v with
  | Ok decoded => Ok decoded
  | Raise JSONDecodeError | Raise TypeError => Ok v
  | Raise e => Raise e
  end.

Definition from_dict `{Interpreter} (data : Change.t) : result t :=
  decoded ← list_comprehension transform_to_dict_if_json
              (Change.columnvalues data);
  Ok (mk (Change.kind data) (Change.schema data) (Change.table data)
         (Change.columnnames data) (Change.columntypes data)
         (Change.columnvalues data)
         (dict_of_pairs (zip (Change.columnnames data) decoded))).

(** The dict comprehension shared by the four [get_insertable_values]:
    [{key.split(".")[-1]: self.column_names_values.get(key) for key in keys}]. *)
Definition insertable_values (keys : list string) (self : t)
  : gmap string value :=
  foldl (λ d k, <[last_segment k := dict_get (column_names_values self) k]> d)
        ∅ keys.

(** The body shared by the three [get_join_key]. *)
Definition join_key (column : string) (self : t) : result value :=
  value_index ← list_index (column_names self) column;
  list_item (column_values self) value_index.

End WALRow.

Module EventV2DataRow.
Definition keys : list string :=
  ["event_id"; "flow_id"; "created_at"; "transaction_lifecycle_event";
   "error_details.decline_reason"; "error_details.decline_type"].
Definition get_insertable_values : WALRow.t → gmap string value :=
  WALRow.insertable_values keys.
End EventV2DataRow.

Module TransactionsRow.
Definition get_join_key : WALRow.t → result value :=
  WALRow.join_key "transaction_id".
Definition keys : list string :=
  ["transaction_id"; "transaction_type"; "created_at"; "amount";
   "currency_code"; "processor_merchant_account_id"].
Definition get_insertable_values : WALRow.t → gmap string value :=
  WALRow.insertable_values keys.
End TransactionsRow.

Module TransactionRequestsRow.
Definition get_join_key : WALRow.t → result value :=
  WALRow.join_key "flow_id".
Definition keys : list string := ["vault_options.payment_method"].
Definition get_insertable_values : WALRow.t → gmap string value :=
  WALRow.insertable_values keys.
End TransactionRequestsRow.

Module PaymentInstrumentTokenDataRow.
Definition get_join_key : WALRow.t → result value :=
  WALRow.join_key "token_id".
Definition keys : list string :=
  ["three_d_secure_authentication"; "payment_instrument_type";
   "vault_data.customer_id"].
Definition get_insertable_values : WALRow.t → gmap string value :=
  WALRow.insertable_values keys.
End PaymentInstrumentTokenDataRow.

Module InsertableRow.

Record t : Type := mk {
  event_id : value;
  flow_id : value;
  created_at : value;
  transaction_lifecycle_event : value;
  decline_reason : value;
  decline_type : value;
  payment_method : value;
  transaction_id : value;
  transaction_type : value;
  amount : value;
  currency_code : value;
  processor_merchant_account_id : value;
  three_d_secure_authentication : value;
  payment_instrument_type : value;
  customer_id : value
}.

Definition fields : list string :=
  ["event_id"; "flow_id"; "created_at"; "transaction_lifecycle_event";
   "decline_reason"; "decline_type"; "payment_method"; "transaction_id";
   "transaction_type"; "amount"; "currency_code";
   "processor_merchant_account_id"; "three_d_secure_authentication";
   "payment_instrument_type"; "customer_id"].

(** The constructor called with a dict as its keyword arguments: every
    field defaults to [None]; a keyword that is not a field is a
    [TypeError]. *)
Definition init (kwargs : gmap string value) : result t :=
  if decide (dom kwargs ⊆ list_to_set fields) then
    Ok (mk (dict_get kwargs "event_id") (dict_get kwargs "flow_id")
           (dict_get kwargs "created_at")
           (dict_get kwargs "transaction_lifecycle_event")
           (dict_get kwargs "decline_reason")
           (dict_get kwargs "decline_type")
           (dict_get kwargs "payment_method")
           (dict_get kwargs "transaction_id")
           (dict_get kwargs "transaction_type")
           (dict_get kwargs "amount")
           (dict_get kwargs "currency_code")
           (dict_get kwargs "processor_merchant_account_id")
           (dict_get kwargs "three_d_secure_authentication")
           (dict_get kwargs "payment_instrument_type")
           (dict_get kwargs "customer_id"))
  else Raise TypeError.

(** The types the fields are annotated with. *)
Inductive python_type : Type :=
| PyInt | PyFloat | PyStr | PyBytes | PyBool | PyList | PyDict | PyTuple
| PyOther.

(** [__annotations__]: the fields with their types, in the order of the
    class body. *)
Definition annotations : list (string * python_type) :=
  [("event_id", PyInt); ("flow_id", PyInt); ("created_at", PyStr);
   ("transaction_lifecycle_event", PyStr); ("decline_reason", PyStr);
   ("decline_type", PyStr); ("payment_method", PyStr);
   ("transaction_id", PyInt); ("transaction_type", PyStr); ("amount", PyInt);
   ("currency_code", PyStr); ("processor_merchant_account_id", PyInt);
   ("three_d_secure_authentication", PyStr);
   ("payment_instrument_type", PyStr); ("customer_id", PyInt)].

(** The class attribute a field's default leaves in [__dict__]: every
    field is declared [= None]. *)
Definition class_dict : gmap string value :=
  dict_of_pairs (map (λ name, (name, VNone)) fields).

(** [astuple(row)]: the values of the fields, in the order of the fields;
    the copy it makes of a list or a dict is equal to the original. *)
Definition astuple (row : t) : list value :=
  [event_id row; flow_id row; created_at row;
   transaction_lifecycle_event row; decline_reason row; decline_type row;
   payment_method row; transaction_id row; transaction_type row; amount row;
   currency_code row; processor_merchant_account_id row;
   three_d_secure_authentication row; payment_instrument_type row;
   customer_id row].

End InsertableRow.

(** ** The statements of the SQLite client *)

(** [sep.join(xs)]. *)
Fixpoint str_join (sep : string) (xs : list string) : string :=
  match xs with
  | [] => EmptyString
  | [x] => x
  | x :: xs' => x ++ sep ++ str_join sep xs'
  end.

(** The text [create_table] and [batch_insert] hand to the cursor; what
    SQLite does with it is outside the model. *)
Module SQLiteClient.

Definition create_table (table_name column_defs : string) : string :=
  "CREATE TABLE IF NOT EXISTS " ++ table_name ++ " (" ++ column_defs ++ ")".

Definition batch_insert (table_name : string) (columns : list string)
    (values : list (list value)) : string * list (list value) :=
  let placeholders := str_join ", " (replicate (length columns) "?") in
  ("INSERT INTO " ++ table_name ++ " (" ++ str_join ", " columns
     ++ ") VALUES (" ++ placeholders ++ ")",
   values).

End SQLiteClient.

(** ** The processor *)

Module WalRecordsProcessor.

(** The five containers of the processor, and the warnings its logger
    has received. *)
Record t : Type := mk {
  event_v2_data_rows : list WALRow.t;
  transaction_rows : gmap key WALRow.t;
  transaction_request_rows : gmap key WALRow.t;
  payment_instrument_token_data_rows : gmap key WALRow.t;
  insertable_rows : list InsertableRow.t;
  warnings : list string
}.

(** A processor as its constructor leaves it. *)
Definition new : t := mk [] ∅ ∅ ∅ [] [].

(** One turn of the loop of [load]; [row] is the value of [row["change"]]. *)
Definition load_row `{Interpreter} (self : t) (row : list Change.t)
  : result t :=
  row ← list_item row 0;
  let '(mk events transactions requests tokens insertable log) := self in
  if String.eqb (Change.table row) "event_v2_data" then
    event_row ← WALRow.from_dict row;
    Ok (mk (events ++ [event_row]) transactions requests tokens insertable log)
  else if String.eqb (Change.table row) "transaction" then
    transaction_row ← WALRow.from_dict row;
    join_key ← TransactionsRow.get_join_key transaction_row;
    transactions' ← index_set transactions join_key transaction_row;
    Ok (mk events transactions' requests tokens insertable log)
  else if String.eqb (Change.table row) "transaction_request" then
    transaction_request_row ← WALRow.from_dict row;
    join_key ← TransactionRequestsRow.get_join_key transaction_request_row;
    requests' ← index_set requests join_key transaction_request_row;
    Ok (mk events transactions requests' tokens insertable log)
  else if String.eqb (Change.table row) "payment_instrument_token_data" then
    payment_instrument_token_data_row ← WALRow.from_dict row;
    join_key ← PaymentInstrumentTokenDataRow.get_join_key
                 payment_instrument_token_data_row;
    tokens' ← index_set tokens join_key payment_instrument_token_data_row;
    Ok (mk events transactions requests tokens' insertable log)
  else
    Ok (mk events transactions requests tokens insertable
           (log ++ ["Unknown table: " ++ Change.table row])).

(** [load], from the document [json.load] has read. *)
Definition load `{Interpreter} (self : t) (data : list (list Change.t))
  : result t :=
  for_each load_row data self.

(** The accumulator [merged_row] of one event, before [InsertableRow] is
    built from it. *)
Definition merged_row (self : t) (event_v2_data_row : WALRow.t)
  : result (gmap string value) :=
  let merged_row := EventV2DataRow.get_insertable_values event_v2_data_row in
  transaction_row ←
    index_get (transaction_rows self)
      (dict_get (WALRow.column_names_values event_v2_data_row)
                "transaction_id");
  let merged_row :=
    match transaction_row with
    | Some transaction_row =>
        dict_update merged_row
          (TransactionsRow.get_insertable_values transaction_row)
    | None => merged_row
    end in
  transaction_request_row ←
    index_get (transaction_request_rows self)
      (dict_get (WALRow.column_names_values event_v2_data_row) "flow_id");
  let merged_row :=
    match transaction_request_row with
    | Some transaction_request_row =>
        dict_update merged_row
          (TransactionRequestsRow.get_insertable_values
             transaction_request_row)
    | None => merged_row
    end in
  payment_instrument_token_data_row ←
    match transaction_request_row with
    | Some transaction_request_row =>
        index_get (payment_instrument_token_data_rows self)
          (dict_get (WALRow.column_names_values transaction_request_row)
                    "token_id")
    | None => Ok None
    end;
  let merged_row :=
    match payment_instrument_token_data_row with
    | Some payment_instrument_token_data_row =>
        dict_update merged_row
          (PaymentInstrumentTokenDataRow.get_insertable_values
             payment_instrument_token_data_row)
    | None => merged_row
    end in
  Ok merged_row.

(** The Output Row of one event: the body of the loop of
    [merge_insertable_rows], up to the [append]. *)
Definition merge_row (self : t) (event_v2_data_row : WALRow.t)
  : result InsertableRow.t :=
  merged_row ← merged_row self event_v2_data_row;
  InsertableRow.init merged_row.

Definition append_row (self : t) (row : InsertableRow.t) : t :=
  mk (event_v2_data_rows self) (transaction_rows self)
     (transaction_request_rows self)
     (payment_instrument_token_data_rows self)
     (insertable_rows self ++ [row]) (warnings self).

Definition merge_insertable_rows (self : t) : result t :=
  for_each
    (λ acc event_v2_data_row,
       row ← merge_row self event_v2_data_row; Ok (append_row acc row))
    (event_v2_data_rows self) self.

Definition convert_python_type_to_sqlite
    (python_type : InsertableRow.python_type) : string :=
  match python_type with
  | InsertableRow.PyInt => "INTEGER"
  | InsertableRow.PyFloat => "REAL"
  | InsertableRow.PyStr => "TEXT"
  | InsertableRow.PyBytes => "BLOB"
  | InsertableRow.PyBool => "INTEGER"
  | InsertableRow.PyList => "TEXT"
  | InsertableRow.PyDict => "TEXT"
  | InsertableRow.PyTuple => "TEXT"
  | InsertableRow.PyOther => "TEXT"
  end.

(** The statement [create_destination_table] has the client execute.
    Python's [bool] and [str] on a default value are parameters: [truthy]
    and [str]. *)
Definition create_destination_table (truthy : value → bool)
    (str : value → string) : string :=
  let column_definitions :=
    map (λ field : string * InsertableRow.python_type,
           let default_value := dict_get InsertableRow.class_dict field.1 in
           field.1 ++ " " ++ convert_python_type_to_sqlite field.2 ++ " "
             ++ (if truthy default_value then str default_value else "NULL"))
        InsertableRow.annotations in
  SQLiteClient.create_table "merged_wal_records"
    (str_join ", " column_definitions).

(** The statement and the rows [write_to_database] hands to the client's
    [batch_insert]; whether SQLite binds every value of the rows is outside
    the model. *)
Definition write_to_database (self : t) : string * list (list value) :=
  let column_names := InsertableRow.fields in
  let column_values := map InsertableRow.astuple (insertable_rows self) in
  SQLiteClient.batch_insert "merged_wal_records" column_names column_values.

End WalRecordsProcessor.

(** ** Vocabulary of the statements *)

(** The keys the three lookups of one event use are hashable: the event's
    own [transaction_id] and [flow_id], and the [token_id] of the
    TransactionRequest row its [flow_id] finds, if it finds one. *)
Definition keys_hashable (self : WalRecordsProcessor.t) (event : WALRow.t)
  : bool :=
  hashable (dict_get (WALRow.column_names_values event) "transaction_id") &&
  hashable (dict_get (WALRow.column_names_values event) "flow_id") &&
  match index_get (WalRecordsProcessor.transaction_request_rows self)
          (dict_get (WALRow.column_names_values event) "flow_id") with
  | Ok (Some request) =>
      hashable (dict_get (WALRow.column_names_values request) "token_id")
  | _ => true
  end.

(** The value a hop gives to an output field: the column of the matched
    row, or [otherwise] when the hop matched no row. *)
Definition hop_value (hop : option WALRow.t) (column : string)
    (otherwise : value) : value :=
  match hop with
  | Some row => dict_get (WALRow.column_names_values row) column
  | None => otherwise
  end.

(** The Output Row of an event, given the rows its three hops matched. *)
Definition joined_row (event : WALRow.t)
    (transaction request token : option WALRow.t) : InsertableRow.t :=
  let own := dict_get (WALRow.column_names_values event) in
  InsertableRow.mk
    (own "event_id") (own "flow_id")
    (hop_value transaction "created_at" (own "created_at"))
    (own "transaction_lifecycle_event")
    (own "error_details.decline_reason")
    (own "error_details.decline_type")
    (hop_value request "vault_options.payment_method" VNone)
    (hop_value transaction "transaction_id" VNone)
    (hop_value transaction "transaction_type" VNone)
    (hop_value transaction "amount" VNone)
    (hop_value transaction "currency_code" VNone)
    (hop_value transaction "processor_merchant_account_id" VNone)
    (hop_value token "three_d_secure_authentication" VNone)
    (hop_value token "payment_instrument_type" VNone)
    (hop_value token "vault_data.customer_id" VNone).

(** The source column an output field is read from: the last of [keys]
    whose last dotted segment is the field. *)
Definition source_column (keys : list string) (field : string)
  : option string :=
  foldl (λ found k, if String.eqb (last_segment k) field then Some k else found)
        None keys.

(** [if hop is not None: acc.update(values(hop))]. *)
Definition merge_hop (acc : gmap string value) (hop : option WALRow.t)
    (values : WALRow.t → gmap string value) : gmap string value :=
  match hop with
  | Some row => dict_update acc (values row)
  | None => acc
  end.

(** The accumulator after the three hops. *)
Definition accumulated (event : WALRow.t)
    (transaction request token : option WALRow.t) : gmap string value :=
  merge_hop
    (merge_hop
       (merge_hop (EventV2DataRow.get_insertable_values event)
          transaction TransactionsRow.get_insertable_values)
       request TransactionRequestsRow.get_insertable_values)
    token PaymentInstrumentTokenDataRow.get_insertable_values.

(** The third lookup: made with the [token_id] of the TransactionRequest
    row the second lookup found, and not made when it found none. *)
Definition token_lookup (self : WalRecordsProcessor.t)
    (request : option WALRow.t) : result (option WALRow.t) :=
  match request with
  | Some request =>
      index_get (WalRecordsProcessor.payment_instrument_token_data_rows self)
        (dict_get (WALRow.column_names_values request) "token_id")
  | None => Ok None
  end.

(** The processor with another PaymentInstrumentTokenData index. *)
Definition with_tokens (self : WalRecordsProcessor.t)
    (tokens : gmap key WALRow.t) : WalRecordsProcessor.t :=
  WalRecordsProcessor.mk
    (WalRecordsProcessor.event_v2_data_rows self)
    (WalRecordsProcessor.transaction_rows self)
    (WalRecordsProcessor.transaction_request_rows self)
    tokens
    (WalRecordsProcessor.insertable_rows self)
    (WalRecordsProcessor.warnings self).

(** The index entry a record of the batch stands for: the record is of the
    given table, and its row has a hashable value in the key column. *)
Definition keyed_row `{Interpreter} (table column : string)
    (record : list Change.t)
  : option (key * WALRow.t) :=
  match record with
  | change :: _ =>
      if String.eqb (Change.table change) table then
        match WALRow.from_dict change with
        | Ok row =>
            match WALRow.join_key column row ≫= hash_key with
            | Ok k => Some (k, row)
            | Raise _ => None
            end
        | Raise _ => None
        end
      else None
  | [] => None
  end.

(** An index after one record: the entry the record stands for, if it
    stands for one, is written over the index. *)
Definition index_step (entry : option (key * WALRow.t))
    (index : gmap key WALRow.t) : gmap key WALRow.t :=
  match entry with
  | Some (k, row) => <[k := row]> index
  | None => index
  end.

(** The three indexed tables: the name of the table, its key column and
    the [get_join_key] of its row variant. *)
Definition variants : list (string * string * (WALRow.t → result value)) :=
  [ ("transaction", "transaction_id", TransactionsRow.get_join_key);
    ("transaction_request", "flow_id", TransactionRequestsRow.get_join_key);
    ("payment_instrument_token_data", "token_id",
     PaymentInstrumentTokenDataRow.get_join_key) ].

(** The row of the last record of the batch, in input order, that stands
    for the key [k] in the index of [table]. *)
Fixpoint last_occurrence `{Interpreter} (table column : string) (k : key)
    (data : list (list Change.t)) : option WALRow.t :=
  match data with
  | [] => None
  | record :: data' =>
      match last_occurrence table column k data' with
      | Some row => Some row
      | None =>
          match keyed_row table column record with
          | Some (k', row) => if decide (k' = k) then Some row else None
          | None => None
          end
      end
  end.

(** The index the specification describes: each join key of the batch is
    mapped to the row of its last occurrence, and a key the batch does not
    mention keeps the entry it had. *)
Definition index_after `{Interpreter} (table column : string)
    (data : list (list Change.t))
    (before : gmap key WALRow.t) (k : key) : option WALRow.t :=
  match last_occurrence table column k data with
  | Some row => Some row
  | None => before !! k
  end.

(** The four tables [load] knows. *)
Definition known_table (table : string) : bool :=
  String.eqb table "event_v2_data" || String.eqb table "transaction"
  || String.eqb table "transaction_request"
  || String.eqb table "payment_instrument_token_data".

(** The key column of an indexed table. *)
Definition key_column (table : string) : option string :=
  if String.eqb table "transaction" then Some "transaction_id"
  else if String.eqb table "transaction_request" then Some "flow_id"
  else if String.eqb table "payment_instrument_token_data"
  then Some "token_id"
  else None.

(** The exception of the first element of [xs] on which [f] raises. *)
Fixpoint first_error {A B : Type} (f : A → result B) (xs : list A)
  : option exn :=
  match xs with
  | [] => None
  | x :: xs' =>
      match f x with
      | Raise e => Some e
      | Ok _ => first_error f xs'
      end
  end.

(** What is wrong with the key of a record of an indexed table, if
    anything: no key column, no value at the position of the key column,
    or an unhashable value there. *)
Definition key_error (change : Change.t) : option exn :=
  match key_column (Change.table change) with
  | None => None
  | Some column =>
      match list_index (Change.columnnames change) column with
      | Raise _ => Some ValueError
      | Ok i =>
          match Change.columnvalues change !! i with
          | None => Some IndexError
          | Some v => if hashable v then None else Some TypeError
          end
      end
  end.

(** What is wrong with a record of the batch, if anything: an empty
    ["change"] list; for one of the four tables, a column value the decoder
    raises on; then, for an indexed table, what is wrong with its key. *)
Definition record_error `{Interpreter} (record : list Change.t)
  : option exn :=
  match record with
  | [] => Some IndexError
  | change :: _ =>
      if known_table (Change.table change) then
        match first_error WALRow.transform_to_dict_if_json
                (Change.columnvalues change) with
        | Some e => Some e
        | None => key_error change
        end
      else None
  end.

(** The row of an Event record. *)
Definition event_row `{Interpreter} (record : list Change.t)
  : option WALRow.t :=
  match record with
  | change :: _ =>
      if String.eqb (Change.table change) "event_v2_data" then
        match WALRow.from_dict change with
        | Ok row => Some row
        | Raise _ => None
        end
      else None
  | [] => None
  end.

(** The warning of a record of an unknown table. *)
Definition unknown_warning (record : list Change.t) : option string :=
  match record with
  | change :: _ =>
      if known_table (Change.table change) then None
      else Some ("Unknown table: " ++ Change.table change)
  | [] => None
  end.

Definition of_known_table (record : list Change.t) : bool :=
  match unknown_warning record with
  | Some _ => false
  | None => true
  end.

(** The processor after a record that has nothing wrong: an Event row is
    appended, an indexed row is filed under its join key, an unknown table
    leaves a warning. *)
Definition after_record `{Interpreter} (self : WalRecordsProcessor.t)
    (record : list Change.t) : WalRecordsProcessor.t :=
  WalRecordsProcessor.mk
    (WalRecordsProcessor.event_v2_data_rows self
       ++ option_list (event_row record))
    (index_step (keyed_row "transaction" "transaction_id" record)
       (WalRecordsProcessor.transaction_rows self))
    (index_step (keyed_row "transaction_request" "flow_id" record)
       (WalRecordsProcessor.transaction_request_rows self))
    (index_step (keyed_row "payment_instrument_token_data" "token_id" record)
       (WalRecordsProcessor.payment_instrument_token_data_rows self))
    (WalRecordsProcessor.insertable_rows self)
    (WalRecordsProcessor.warnings self
       ++ option_list (unknown_warning record)).

(** The error of the first record of the batch that has one. *)
Fixpoint batch_error `{Interpreter} (data : list (list Change.t))
  : option exn :=
  match data with
  | [] => None
  | record :: data' =>
      match record_error record with
      | Some e => Some e
      | None => batch_error data'
      end
  end.

(** The row a lookup with the value [v] finds in the index [load] builds
    from [data] on a new processor. *)
Definition found_in `{Interpreter} (table column : string)
    (data : list (list Change.t))
    (v : value) : option WALRow.t :=
  match hash_key v with
  | Ok k => last_occurrence table column k data
  | Raise _ => None
  end.

(** An index files every row under the hash of the row's own join key,
    and holds rows of its table only. *)
Definition filed_by_join_key (table column : string)
    (index : gmap key WALRow.t) : Prop :=
  ∀ k row, index !! k = Some row →
           WALRow.table row = table ∧
           WALRow.join_key column row ≫= hash_key = Ok k.

(** The digits of the number a decoder is reading, and the containers it
    has open. *)
Definition pending (d : Json.decoder) : nat :=
  match Json.lexeme d with
  | Json.LNumber acc => length acc
  | _ => 0%nat
  end.

Definition depth (d : Json.decoder) : nat := length (Json.stack d).

(** What an exception of the decoder tells about the document: a
    [ValueError] that a number of more than 640 digits, and of more digits
    than [int] converts, was among the [digits] characters read; a
    [RecursionError] that [max_nesting] containers can have been opened
    with [nesting] characters. *)
Definition raised `{Interpreter} (e : exn) (digits nesting : nat) : Prop :=
  e = JSONDecodeError ∨
  (e = ValueError ∧
   (640 < digits ∧ 0 < int_max_str_digits < digits)%nat) ∨
  (e = RecursionError ∧ (max_nesting ≤ nesting)%nat).

(** A text short enough for both limits of the interpreter. *)
Definition within_limits `{Interpreter} (s : string) : Prop :=
  (String.length s ≤ 640 ∨ int_max_str_digits = 0 ∨
   String.length s ≤ int_max_str_digits)%nat ∧
  (String.length s < max_nesting)%nat.

(** No dot in a string. *)
Definition dot_free (s : string) : bool :=
  forallb (λ c, negb (Ascii.eqb c "."%char)) (list_ascii_of_string s).

(** ** Sample batches *)

(** The interpreter the samples are run by: the default limit of 4300
    digits, and a nesting depth below the default recursion limit of 1000,
    the exact depth depending on how deep the caller itself is. *)
#[global] Instance cpython : Interpreter :=
  {| int_max_str_digits := 4300; max_nesting := 990 |}.

(** A text between double quotes. *)
Definition quoted (s : string) : string :=
  String Json.quote (s ++ String Json.quote EmptyString).

Definition insert_into (table : string) (names : list string)
    (values : list value) : list Change.t :=
  [Change.mk (VStr "insert") (VStr "public") table names [] values].

(** The scenario of the unit test, with a [created_at] on both sides and a
    record of a table the processor does not know. *)
Definition sample_batch : list (list Change.t) :=
  [ insert_into "transaction"
      ["transaction_id"; "transaction_type"; "created_at"]
      [VInt 2; VStr "sale"; VStr "2023-04-30"];
    insert_into "audit_log" ["id"] [VInt 7];
    insert_into "transaction_request"
      ["flow_id"; "vault_options.payment_method"; "token_id"]
      [VInt 3; VStr "credit_card"; VInt 4];
    insert_into "payment_instrument_token_data"
      ["token_id"; "three_d_secure_authentication"]
      [VInt 4; VStr "authenticated"];
    insert_into "event_v2_data"
      ["event_id"; "flow_id"; "transaction_id"; "created_at"]
      [VInt 1; VInt 3; VInt 2; VStr "2023-05-01"] ].

(** The same event, with no TransactionRequest row for its [flow_id], a
    Transaction row without [created_at], and a PaymentInstrumentTokenData
    row whose key is the event's own [flow_id]. *)
Definition unmatched_batch : list (list Change.t) :=
  [ insert_into "transaction"
      ["transaction_id"; "transaction_type"] [VInt 2; VStr "sale"];
    insert_into "payment_instrument_token_data"
      ["token_id"; "three_d_secure_authentication"]
      [VInt 3; VStr "authenticated"];
    insert_into "event_v2_data"
      ["event_id"; "flow_id"; "transaction_id"; "created_at"]
      [VInt 1; VInt 3; VInt 2; VStr "2023-05-01"] ].

(** An event whose [transaction_id] column holds the text of a JSON array. *)
Definition array_key_batch : list (list Change.t) :=
  [ insert_into "event_v2_data"
      ["event_id"; "transaction_id"] [VInt 1; VStr "[2]"] ].

(** An event whose [flow_id] column holds the text of a JSON object. *)
Definition object_key_batch : list (list Change.t) :=
  [ insert_into "event_v2_data"
      ["event_id"; "flow_id"] [VInt 1; VStr "{}"] ].

(** A Transaction row whose own [transaction_id] is null, and an event
    with no [transaction_id] column at all. *)
Definition null_key_batch : list (list Change.t) :=
  [ insert_into "transaction"
      ["transaction_id"; "transaction_type"] [VNone; VStr "sale"];
    insert_into "event_v2_data" ["event_id"] [VInt 1] ].

(** Two Transaction records with one join key. *)
Definition duplicate_key_batch : list (list Change.t) :=
  [ insert_into "transaction"
      ["transaction_id"; "transaction_type"] [VInt 2; VStr "sale"];
    insert_into "transaction"
      ["transaction_id"; "transaction_type"] [VInt 2; VStr "refund"] ].

(** A Transaction record without the [transaction_id] column. *)
Definition keyless_batch : list (list Change.t) :=
  [ insert_into "event_v2_data" ["event_id"] [VInt 1];
    insert_into "transaction" ["transaction_type"] [VStr "sale"] ].

(** A payload with two column names and one column value. *)
Definition short_values_change : Change.t :=
  Change.mk (VStr "insert") (VStr "public") "transaction"
    ["transaction_id"; "amount"] [] [VInt 2].

(** A Transaction payload with two column names and one column value,
    the key column being the second name. *)
Definition misaligned_change : Change.t :=
  Change.mk (VStr "insert") (VStr "public") "transaction"
    ["amount"; "transaction_id"] [] [VInt 5].

(** A payload whose [amount] column holds the text [123]. *)
Definition text_amount_change : Change.t :=
  Change.mk (VStr "insert") (VStr "public") "transaction"
    ["transaction_id"; "amount"] [] [VStr "T-2"; VStr "123"].

(** The text of an integer of [n] digits, and the text that opens [n]
    arrays inside one another. *)
Definition digits_text (n : nat) : string :=
  string_of_list_ascii (replicate n "1"%char).

Definition open_arrays_text (n : nat) : string :=
  string_of_list_ascii (replicate n "["%char).

Definition long_integer_text : string := digits_text 4301.

Definition deep_array_text : string := open_arrays_text 1000.

(** An interpreter set to the lowest limit of digits [int] accepts to be
    given, running the decoder with room for three containers. *)
Definition lowest_limits : Interpreter :=
  {| int_max_str_digits := 640; max_nesting := 3 |}.

(** An Event payload with a text in its [reference] column, and the one
    with the long integer text. *)
Definition reference_change (text : string) : Change.t :=
  Change.mk (VStr "insert") (VStr "public") "event_v2_data"
    ["event_id"; "reference"] [] [VInt 1; VStr text].

Definition long_integer_change : Change.t :=
  reference_change long_integer_text.

(** A Transaction row whose key is the integer 2, a later one whose key
    is the float [2.0], and an event whose [transaction_id] is the integer
    2. *)
Definition float_key_batch : list (list Change.t) :=
  [ insert_into "transaction"
      ["transaction_id"; "transaction_type"] [VInt 2; VStr "sale"];
    insert_into "transaction"
      ["transaction_id"; "transaction_type"] [VFloat "2.0"; VStr "refund"];
    insert_into "event_v2_data"
      ["event_id"; "transaction_id"] [VInt 1; VInt 2] ].

Definition float_key_output : InsertableRow.t :=
  InsertableRow.mk (VInt 1) VNone VNone VNone VNone VNone
    VNone (VFloat "2.0") (VStr "refund") VNone VNone VNone
    VNone VNone VNone.

(** The processor after [load] of a batch on a new processor, and the
    first event row it holds. *)
Definition loaded `{Interpreter} (data : list (list Change.t))
  : WalRecordsProcessor.t :=
  match WalRecordsProcessor.load WalRecordsProcessor.new data with
  | Ok self => self
  | Raise _ => WalRecordsProcessor.new
  end.

(** The processor after [load] and [merge_insertable_rows]. *)
Definition joined `{Interpreter} (data : list (list Change.t))
  : WalRecordsProcessor.t :=
  match WalRecordsProcessor.merge_insertable_rows (loaded data) with
  | Ok self => self
  | Raise _ => loaded data
  end.

Definition empty_row : WALRow.t :=
  WALRow.mk VNone VNone EmptyString [] [] [] ∅.

Definition first_event (self : WalRecordsProcessor.t) : WALRow.t :=
  List.hd empty_row (WalRecordsProcessor.event_v2_data_rows self).

(** The Output Rows of the events of [sample_batch], [unmatched_batch] and
    [null_key_batch]. *)
Definition sample_output : InsertableRow.t :=
  InsertableRow.mk (VInt 1) (VInt 3) (VStr "2023-04-30") VNone VNone VNone
    (VStr "credit_card") (VInt 2) (VStr "sale") VNone VNone VNone
    (VStr "authenticated") VNone VNone.

Definition unmatched_output : InsertableRow.t :=
  InsertableRow.mk (VInt 1) (VInt 3) VNone VNone VNone VNone
    VNone (VInt 2) (VStr "sale") VNone VNone VNone
    VNone VNone VNone.

Definition null_key_output : InsertableRow.t :=
  InsertableRow.mk (VInt 1) VNone VNone VNone VNone VNone
    VNone VNone (VStr "sale") VNone VNone VNone
    VNone VNone VNone.

(** * Properties *)

(** ** The model on the scenario of the unit test *)

Example loads_examples :
  map Json.loads
    [VStr ("{" ++ quoted "a" ++ ": [1, true, null], "
               ++ quoted "a" ++ ": -20}");
     VStr " 42 "; VStr (quoted "x\u00e9"); VStr "2023-05-01"; VStr "01";
     VStr "[1,]"; VStr ""; VInt 7; VNone; VStr "[-0, 2.50, 1E3, NaN]";
     VStr "-NaN"; VStr "1."; VStr "1 2"]
  = [Ok (VDict [("a", VInt (-20))]);
     Ok (VInt 42); Ok (VStr "xé"); Raise JSONDecodeError;
     Raise JSONDecodeError; Raise JSONDecodeError; Raise JSONDecodeError;
     Raise TypeError; Raise TypeError;
     Ok (VList [VInt 0; VFloat "2.50"; VFloat "1E3"; VFloat "NaN"]);
     Raise JSONDecodeError; Raise JSONDecodeError; Raise JSONDecodeError].
Proof. vm_compute. reflexivity. Qed.

Example last_segment_examples :
  map last_segment ["error_details.decline_reason"; "event_id"; "a.b.c"; "a."]
  = ["decline_reason"; "event_id"; "c"; ""%string].
Proof. reflexivity. Qed.

Example sample_join :
  (self ← WalRecordsProcessor.load WalRecordsProcessor.new sample_batch;
   self ← WalRecordsProcessor.merge_insertable_rows self;
   Ok (WalRecordsProcessor.insertable_rows self,
       WalRecordsProcessor.warnings self))
  = Ok ([sample_output], ["Unknown table: audit_log"]).
Proof. vm_compute. reflexivity. Qed.

Example unmatched_join :
  (self ← WalRecordsProcessor.load WalRecordsProcessor.new unmatched_batch;
   self ← WalRecordsProcessor.merge_insertable_rows self;
   Ok (WalRecordsProcessor.insertable_rows self))
  = Ok [unmatched_output].
Proof. vm_compute. reflexivity. Qed.

(** The limits of the interpreter, at their lowest: 640 digits are
    converted and 641 are not, a fraction lifts the limit, and what is
    wrong first in reading order decides the exception. *)
Example decoder_limits :
  let loads := @Json.loads lowest_limits in
  loads (VStr (digits_text 641)) = Raise ValueError ∧
  loads (VStr ("[-" ++ digits_text 641 ++ ".")) = Raise ValueError ∧
  loads (VStr (digits_text 641 ++ ".5x")) = Raise JSONDecodeError ∧
  loads (VStr ("1 " ++ digits_text 641)) = Raise JSONDecodeError ∧
  loads (VStr (digits_text 641 ++ ".0"))
    = Ok (VFloat (digits_text 641 ++ ".0")) ∧
  (∃ z, loads (VStr (digits_text 640)) = Ok (VInt z)) ∧
  loads (VStr "[[[[") = Raise RecursionError ∧
  loads (VStr "1[[[[") = Raise JSONDecodeError ∧
  loads (VStr "[[[]]]") = Ok (VList [VList [VList []]]) ∧
  loads (VStr "[[[[]]]]") = Raise RecursionError.
Proof.
  cbv zeta. repeat match goal with |- _ ∧ _ => split end;
    try (vm_compute; reflexivity); eexists; vm_compute; reflexivity.
Qed.

(** Numbers are one key when they are equal, whatever they are written
    as; a float is the binary64 number nearest to its literal. *)
Example numeric_keys :
  hash_key (VFloat "2.0") = hash_key (VInt 2) ∧
  hash_key (VFloat "2.50") = hash_key (VFloat "2.5") ∧
  hash_key (VFloat "25e-1") = Ok (KFloat 5 (-1)) ∧
  hash_key (VBool true) = hash_key (VFloat "1E0") ∧
  hash_key (VFloat "-0.0") = hash_key (VInt 0) ∧
  hash_key (VFloat "0.1") = Ok (KFloat 3602879701896397 (-55)) ∧
  hash_key (VFloat "0.1") = hash_key (VFloat "0.10000000000000001") ∧
  hash_key (VFloat "1e23") = Ok (KInt 99999999999999991611392) ∧
  hash_key (VFloat "9007199254740993.0") = Ok (KInt 9007199254740992) ∧
  hash_key (VFloat "5e-324") = Ok (KFloat 1 (-1074)) ∧
  hash_key (VFloat "2e-324") = Ok (KInt 0) ∧
  hash_key (VFloat "1e400") = Ok (KInfinity false) ∧
  hash_key (VFloat "-Infinity") = Ok (KInfinity true) ∧
  hash_key (VFloat "NaN") = Ok KNaN ∧
  hash_key (VStr "2") ≠ hash_key (VInt 2).
Proof.
  repeat match goal with |- _ ∧ _ => split end;
    vm_compute; (reflexivity || discriminate).
Qed.

(** The integer 2 and the float [2.0] are one join key: the later
    Transaction row replaces the earlier one, and it is the row an event
    with the integer 2 finds. *)
Example float_key_join :
  (self ← WalRecordsProcessor.load WalRecordsProcessor.new float_key_batch;
   self' ← WalRecordsProcessor.merge_insertable_rows self;
   Ok (size (WalRecordsProcessor.transaction_rows self),
       WalRecordsProcessor.insertable_rows self'))
  = Ok (1%nat, [float_key_output]).
Proof. vm_compute. reflexivity. Qed.

(** ** The result monad and the loops *)

Lemma bind_ok {A B : Type} (r : result A) (k : A → result B) (b : B) :
  r ≫= k = Ok b ↔ ∃ a, r = Ok a ∧ k a = Ok b.
Proof.
  destruct r as [a|e]; simpl.
  - split; [by exists a | by intros (a' & [= ->] & ?)].
  - split; [done | by intros (? & ? & ?)].
Qed.

Lemma raises_bind {A B : Type} (r : result A) (k : A → result B) :
  raises (r ≫= k) ↔ raises r ∨ ∃ a, r = Ok a ∧ raises (k a).
Proof.
  destruct r as [a|e]; simpl.
  - split; [by right; exists a | by intros [[] | (a' & [= ->] & ?)]].
  - split; [by left | done].
Qed.

Lemma for_each_app {S A : Type} (f : S → A → result S) (xs ys : list A) (s : S) :
  for_each f (xs ++ ys) s = for_each f xs s ≫= for_each f ys.
Proof.
  revert s. induction xs as [|x xs IH]; intros s; simpl; [done|].
  destruct (f s x) as [s'|e]; simpl; [apply IH | done].
Qed.

Lemma list_comprehension_ok {A B : Type} (f : A → result B) (xs : list A) :
  (∀ x, x ∈ xs → ∃ y, f x = Ok y) →
  ∃ ys, list_comprehension f xs = Ok ys ∧ Forall2 (λ x y, f x = Ok y) xs ys.
Proof.
  induction xs as [|x xs IH]; intros Hf; simpl.
  - exists []. by split.
  - destruct (Hf x) as [y Hy]; [left|].
    destruct IH as (ys & Hys & Hall); [intros; apply Hf; by right|].
    exists (y :: ys). rewrite Hy, Hys. split; [done | by constructor].
Qed.

(** ** The decoder

    What an exception of [json.loads] tells about its argument, by
    following the digits of the number being read and the open containers
    through the pass. *)

Lemma reduce_spec (v : value) (stack : list Json.frame) :
  match Json.reduce v stack with
  | Ok (_, stack') => length stack' = length stack
  | Raise e => e = JSONDecodeError
  end.
Proof. by destruct stack as [|[] ?]. Qed.

Lemma close_spec (t : Json.token) (stack : list Json.frame) :
  match Json.close t stack with
  | Ok (_, stack') => (length stack' ≤ length stack)%nat
  | Raise e => e = JSONDecodeError
  end.
Proof.
  unfold Json.close.
  destruct t, stack as [|[] stack]; try done;
    match goal with |- context [Json.reduce ?v ?s] =>
      pose proof (reduce_spec v s) as Hr; destruct (Json.reduce v s) as [[? ?]|]
    end; simpl in *; try done; lia.
Qed.

Lemma parse_step_spec `{Interpreter} (st : Json.parse_state) (t : Json.token)
    (stack : list Json.frame) :
  match Json.parse_step st t stack with
  | Ok (_, stack') => (length stack' ≤ S (length stack))%nat
  | Raise e =>
      e = JSONDecodeError ∨
      (e = RecursionError ∧ (max_nesting ≤ length stack)%nat)
  end.
Proof.
  assert (Hopen : match Json.open_value t stack with
                  | Ok (_, stack') => (length stack' ≤ S (length stack))%nat
                  | Raise e =>
                      e = JSONDecodeError ∨
                      (e = RecursionError ∧ (max_nesting ≤ length stack)%nat)
                  end).
  { unfold Json.open_value, Json.nest.
    destruct t; try (by left);
      try (match goal with |- context [Json.reduce ?v ?s] =>
             pose proof (reduce_spec v s) as Hr;
             destruct (Json.reduce v s) as [[? ?]|]
           end; [lia | by left]);
      destruct (Nat.leb_spec max_nesting (length stack)); simpl;
      try lia; by right. }
  assert (Hclose := close_spec t stack).
  assert (Hkey : match Json.open_key t stack with
                 | Ok (_, stack') => (length stack' ≤ S (length stack))%nat
                 | Raise e => e = JSONDecodeError
                 end).
  { unfold Json.open_key. destruct t, stack as [|[] ?]; simpl; try done; lia. }
  unfold Json.parse_step.
  destruct st; try done.
  - destruct t; try done.
    destruct (Json.close _ _) as [[? ?]|]; [lia | by left].
  - destruct t; try (destruct (Json.open_key _ _) as [[? ?]|]; [lia | by left]).
    destruct (Json.close _ _) as [[? ?]|]; [lia | by left].
  - destruct (Json.open_key _ _) as [[? ?]|]; [lia | by left].
  - destruct t; try (by left). lia.
  - destruct t, stack as [|[] ?]; simpl; try (by left); try lia;
      try (destruct (Json.close _ _) as [[? ?]|]; simpl in *; [lia | by left]);
      match goal with |- context [Json.reduce ?v ?s] =>
        pose proof (reduce_spec v s) as Hr;
        destruct (Json.reduce v s) as [[? ?]|]
      end; simpl in *; try lia; by left.
  - by left.
Qed.

Lemma shift_spec `{Interpreter} (st : Json.parse_state) (t : Json.token)
    (stack : list Json.frame) :
  match Json.shift st t stack with
  | Ok d => pending d = 0%nat ∧ (depth d ≤ S (length stack))%nat
  | Raise e =>
      e = JSONDecodeError ∨
      (e = RecursionError ∧ (max_nesting ≤ length stack)%nat)
  end.
Proof.
  unfold Json.shift. pose proof (parse_step_spec st t stack) as Hp.
  destruct (Json.parse_step st t stack) as [[? ?]|]; simpl; [|done].
  by split.
Qed.

(** A number or a word goes to the automaton without opening a container. *)
Lemma shift_scalar_spec `{Interpreter} (st : Json.parse_state) (t : Json.token)
    (stack : list Json.frame) :
  t ≠ Json.TLBracket → t ≠ Json.TLBrace →
  match Json.shift st t stack with
  | Ok d => pending d = 0%nat ∧ (depth d ≤ length stack)%nat
  | Raise e => e = JSONDecodeError
  end.
Proof.
  intros H1 H2. unfold Json.shift, Json.parse_step, Json.open_value.
  pose proof (close_spec t stack) as Hc.
  assert (Hr := λ v, reduce_spec v stack).
  destruct st, t; try done;
    repeat match goal with
    | |- context [Json.reduce ?v ?s] =>
        let H := fresh in
        pose proof (reduce_spec v s) as H;
        destruct (Json.reduce v s) as [[? ?]|]; simpl in *
    | |- context [Json.close ?v ?s] =>
        destruct (Json.close v s) as [[? ?]|]; simpl in *
    | |- context [Json.open_key ?v ?s] =>
        unfold Json.open_key; destruct s as [|[] ?]; simpl in *
    | |- context [match ?s with [] => _ | _ :: _ => _ end] =>
        destruct s as [|[] ?]; simpl in *
    end; try done; unfold depth; simpl; split; try done; lia.
Qed.

Lemma length_skip_digits (cs : list ascii) :
  (length (Json.skip_digits cs) ≤ length cs)%nat.
Proof.
  induction cs as [|c cs IH]; simpl; [done|].
  destruct (Json.is_digit c); simpl; lia.
Qed.

Lemma length_unsigned (cs : list ascii) :
  (length (Json.unsigned cs) ≤ length cs)%nat.
Proof. unfold Json.unsigned. repeat case_match; simpl; lia. Qed.

Lemma finish_number_spec `{Interpreter} (acc : list ascii) :
  match Json.finish_number acc with
  | Ok t => t ≠ Json.TLBracket ∧ t ≠ Json.TLBrace
  | Raise e =>
      e = JSONDecodeError ∨
      (e = ValueError ∧
       (640 < length acc ∧ 0 < int_max_str_digits < length acc)%nat)
  end.
Proof.
  unfold Json.finish_number.
  destruct (Json.int_part (rev acc)) as [r1|] eqn:Hi; [|by left].
  destruct (Json.frac_part r1) as [f r2].
  destruct (Json.exp_part r2) as [e r3].
  destruct (f || e).
  { destruct r3; [done | by left]. }
  destruct (Json.int_refuses _) eqn:Hr.
  - right. split; [done|]. unfold Json.int_refuses in Hr.
    apply andb_prop in Hr as [Hr H3]. apply andb_prop in Hr as [H1 H2].
    apply Nat.ltb_lt in H1, H2, H3.
    pose proof (length_unsigned (rev acc)) as Hu. rewrite length_rev in Hu.
    lia.
  - destruct r3; [done | by left].
Qed.

Lemma finish_word_spec (acc : list ascii) :
  match Json.finish_word acc with
  | Ok t => t ≠ Json.TLBracket ∧ t ≠ Json.TLBrace
  | Raise e => e = JSONDecodeError
  end.
Proof.
  unfold Json.finish_word.
  repeat (destruct (String.eqb _ _); [done|]). done.
Qed.

Lemma start_spec `{Interpreter} (c : ascii) (st : Json.parse_state)
    (stack : list Json.frame) :
  match Json.start c st stack with
  | Ok d => (pending d ≤ 1 ∧ depth d ≤ S (length stack))%nat
  | Raise e =>
      e = JSONDecodeError ∨
      (e = RecursionError ∧ (max_nesting ≤ length stack)%nat)
  end.
Proof.
  unfold Json.start.
  destruct (Json.is_ws c); [unfold pending, depth; simpl; lia|].
  destruct (_ || _).
  { destruct (Json.expects_value st); [|by left].
    unfold pending, depth; simpl; lia. }
  destruct (Json.is_letter c).
  { destruct (Json.expects_value st); [|by left].
    unfold pending, depth; simpl; lia. }
  destruct (Json.is_quote c).
  { destruct (_ || _); [unfold pending, depth; simpl; lia | by left]. }
  destruct (Json.punctuation c) as [t|]; [|by left].
  pose proof (shift_spec st t stack) as Hs.
  destruct (Json.shift st t stack); [lia | done].
Qed.

Lemma step_spec `{Interpreter} (d : Json.decoder) (c : ascii) :
  match Json.step d c with
  | Ok d' => (pending d' ≤ S (pending d) ∧ depth d' ≤ S (depth d))%nat
  | Raise e => raised e (pending d) (depth d)
  end.
Proof.
  destruct d as [lx st stack]. unfold Json.step, raised.
  assert (Hstart := λ st stack, start_spec c st stack).
  assert (Hafter : ∀ t, t ≠ Json.TLBracket ∧ t ≠ Json.TLBrace →
            match d' ← Json.shift st t stack;
                  Json.start c (Json.state d') (Json.stack d') with
            | Ok d' => (pending d' ≤ 1 ∧ depth d' ≤ S (length stack))%nat
            | Raise e =>
                e = JSONDecodeError ∨
                (e = RecursionError ∧ (max_nesting ≤ length stack)%nat)
            end).
  { intros t [H1 H2]. pose proof (shift_scalar_spec st t stack H1 H2) as Hs.
    destruct (Json.shift st t stack) as [d'|]; simpl; [|by left].
    destruct Hs as [_ Hd]. unfold depth in Hd.
    specialize (Hstart (Json.state d') (Json.stack d')).
    destruct (Json.start _ _ _); [lia|].
    destruct Hstart as [?|[? ?]]; [by left | right; split; [done | lia]]. }
  destruct lx as [|acc|acc|acc hex|acc|acc]; unfold pending, depth; simpl.
  - specialize (Hstart st stack). destruct (Json.start c st stack).
    + unfold pending, depth in Hstart. lia.
    + destruct Hstart as [?|?]; [by left | by right; right].
  - destruct (Json.is_quote c).
    + pose proof (shift_scalar_spec st (Json.finish_string acc) stack) as Hs.
      destruct (Json.shift _ _ _).
      * unfold pending, depth in Hs. destruct Hs; [done..|]. lia.
      * left. by apply Hs.
    + destruct (Ascii.eqb c _); [simpl; lia|].
      destruct (_ <? _)%N; [by left | simpl; lia].
  - destruct (Ascii.eqb c _); [simpl; lia|].
    destruct (Json.simple_escape c); [simpl; lia | by left].
  - destruct (Json.hex_digit c); [|by left].
    destruct hex as [|? [|? [|? [|? ?]]]]; simpl; lia.
  - destruct (Json.is_numberish c); [simpl; lia|].
    destruct (Json.lone_minus acc).
    { destruct (Json.is_letter c); [simpl; lia | by left]. }
    pose proof (finish_number_spec acc) as Hn.
    destruct (Json.finish_number acc) as [t|]; simpl.
    + specialize (Hafter t Hn). destruct (_ ≫= _).
      * unfold pending, depth in Hafter. lia.
      * destruct Hafter as [?|?]; [by left | by right; right].
    + destruct Hn as [?|?]; [by left | by right; left].
  - destruct (Json.is_letter c); [simpl; lia|].
    pose proof (finish_word_spec acc) as Hw.
    destruct (Json.finish_word acc) as [t|]; simpl; [|by left].
    specialize (Hafter t Hw). destruct (_ ≫= _).
    + unfold pending, depth in Hafter. lia.
    + destruct Hafter as [?|?]; [by left | by right; right].
Qed.

Lemma finish_spec `{Interpreter} (d : Json.decoder) (e : exn) :
  Json.finish d = Raise e → raised e (pending d) (depth d).
Proof.
  destruct d as [lx st stack].
  unfold Json.finish, raised, pending, depth. simpl.
  destruct lx as [|acc|acc|acc hex|acc|acc]; simpl;
    try (intros [= <-]; by left).
  - destruct st; simpl; intros [= <-]; by left.
  - pose proof (finish_number_spec acc) as Hn.
    destruct (Json.finish_number acc) as [t|]; simpl.
    + pose proof (shift_scalar_spec st t stack) as Hs.
      destruct (Json.shift st t stack) as [d'|]; simpl.
      * destruct (Json.state d'); intros [= <-]; by left.
      * intros [= <-]. left. apply Hs; apply Hn.
    + intros [= <-]. destruct Hn as [?|?]; [by left | by right; left].
  - pose proof (finish_word_spec acc) as Hn.
    destruct (Json.finish_word acc) as [t|]; simpl.
    + pose proof (shift_scalar_spec st t stack) as Hs.
      destruct (Json.shift st t stack) as [d'|]; simpl.
      * destruct (Json.state d'); intros [= <-]; by left.
      * intros [= <-]. left. apply Hs; apply Hn.
    + intros [= <-]. by left.
Qed.

Lemma run_raises `{Interpreter} (s : string) (d : Json.decoder) (e : exn) :
  Json.run d s = Raise e →
  raised e (pending d + String.length s) (depth d + String.length s).
Proof.
  revert d. induction s as [|c s IH]; intros d; simpl.
  - rewrite !Nat.add_0_r. apply finish_spec.
  - pose proof (step_spec d c) as Hs.
    destruct (Json.step d c) as [d'|e']; simpl.
    + intros Hr. apply IH in Hr. unfold raised in *.
      destruct Hr as [?|[[? ?]|[? ?]]]; [by left | right..];
        [left | right]; (split; [done | lia]).
    + intros [= <-]. unfold raised in *.
      destruct Hs as [?|[[? ?]|[? ?]]]; [by left | right..];
        [left | right]; (split; [done | lia]).
Qed.

Lemma loads_raises `{Interpreter} (v : value) (e : exn) :
  Json.loads v = Raise e →
  (e = TypeError ∧ ∀ s, v ≠ VStr s) ∨
  (∃ s, v = VStr s ∧ raised e (String.length s) (String.length s)).
Proof.
  destruct v; simpl; try (intros [= <-]; by left).
  intros Hr. right. exists s. split; [done|].
  by apply run_raises in Hr.
Qed.

(** ** The row parser *)

Lemma transform_cases `{Interpreter} (v : value) :
  match Json.loads v with
  | Ok d => WALRow.transform_to_dict_if_json v = Ok d
  | Raise JSONDecodeError | Raise TypeError =>
      WALRow.transform_to_dict_if_json v = Ok v
  | Raise e => WALRow.transform_to_dict_if_json v = Raise e
  end.
Proof.
  unfold WALRow.transform_to_dict_if_json.
  by destruct (Json.loads v) as [d|[]].
Qed.

(** A value that is not a [str] is never decoded. *)
Lemma transform_not_str `{Interpreter} (v : value) :
  (∀ s, v ≠ VStr s) → WALRow.transform_to_dict_if_json v = Ok v.
Proof. destruct v; intros Hs; try done. by destruct (Hs s). Qed.

(** What escapes the [try] is an exception of the interpreter's limits,
    raised by [json.loads] on a [str]. *)
Lemma transform_raises `{Interpreter} (v : value) (e : exn) :
  WALRow.transform_to_dict_if_json v = Raise e →
  Json.loads v = Raise e ∧
  ∃ s, v = VStr s ∧
       ((e = ValueError ∧
         (640 < String.length s ∧
          0 < int_max_str_digits < String.length s)%nat) ∨
        (e = RecursionError ∧ (max_nesting ≤ String.length s)%nat)).
Proof.
  pose proof (transform_cases v) as Hc. intros Hr.
  destruct (Json.loads v) as [d|e'] eqn:Hl; [by rewrite Hc in Hr|].
  assert (e' = e ∧ e ≠ JSONDecodeError ∧ e ≠ TypeError) as (-> & H1 & H2).
  { destruct e'; rewrite Hc in Hr; try done; by injection Hr as <-. }
  split; [done|].
  destruct (loads_raises v e Hl) as [[-> _] | (s & -> & Hs)]; [done|].
  exists s. split; [done|]. by destruct Hs as [?|[?|?]]; [|left|right].
Qed.

(** A text within the limits of the interpreter is decoded or kept. *)
Lemma transform_within_limits `{Interpreter} (s : string) :
  within_limits s → ∃ v, WALRow.transform_to_dict_if_json (VStr s) = Ok v.
Proof.
  intros [Hd Hn].
  destruct (WALRow.transform_to_dict_if_json (VStr s)) as [v|e] eqn:Ht;
    [by exists v|].
  apply transform_raises in Ht as (_ & s' & [= <-] & [[_ ?] | [_ ?]]); lia.
Qed.

(** The limits are reached: the text of an integer of more digits than
    [int] converts, and the text that opens more arrays than can be open. *)
Lemma skip_digits_replicate (n : nat) :
  Json.skip_digits (replicate n "1"%char) = [].
Proof. induction n as [|n IH]; [done | exact IH]. Qed.

Lemma rev_replicate {A : Type} (n : nat) (x : A) :
  rev (replicate n x) = replicate n x.
Proof.
  induction n as [|n IH]; [done|]. simpl. rewrite IH.
  clear IH. induction n as [|n IH]; [done|]. simpl. by rewrite IH.
Qed.

Lemma run_digits `{Interpreter} (k m : nat) :
  Json.run (Json.mk (Json.LNumber (replicate (S m) "1"%char)) Json.PValue [])
    (digits_text k)
  = Json.finish
      (Json.mk (Json.LNumber (replicate (S (k + m)) "1"%char)) Json.PValue []).
Proof.
  revert m. induction k as [|k IH]; intros m; [done|].
  change (Json.run ?d (digits_text (S k)))
    with (Json.run (Json.mk (Json.LNumber (replicate (S (S m)) "1"%char))
                      Json.PValue []) (digits_text k)).
  rewrite IH. by rewrite Nat.add_succ_r.
Qed.

Lemma loads_digits_text `{Interpreter} (n : nat) :
  (640 < n)%nat → (0 < int_max_str_digits < n)%nat →
  Json.loads (VStr (digits_text n)) = Raise ValueError.
Proof.
  intros Hn Hl. destruct n as [|n]; [lia|].
  change (Json.loads (VStr (digits_text (S n))))
    with (Json.run (Json.mk (Json.LNumber (replicate 1 "1"%char))
                      Json.PValue []) (digits_text n)).
  rewrite run_digits, Nat.add_0_r.
  unfold Json.finish, Json.finish_number. rewrite rev_replicate.
  change (Json.int_part (replicate (S n) "1"%char))
    with (Some (Json.skip_digits (replicate n "1"%char))).
  rewrite skip_digits_replicate. cbn [Json.frac_part Json.exp_part orb].
  change (Json.unsigned (replicate (S n) "1"%char))
    with (replicate (S n) "1"%char).
  rewrite length_replicate. cbn [length]. rewrite Nat.sub_0_r.
  unfold Json.int_refuses.
  destruct (Nat.ltb_spec 640 (S n)); [|lia].
  destruct (Nat.ltb_spec 0 int_max_str_digits); [|lia].
  destruct (Nat.ltb_spec int_max_str_digits (S n)); [|lia]. done.
Qed.

Lemma run_open_arrays `{Interpreter} (k : nat) (st : Json.parse_state)
    (stack : list Json.frame) :
  Json.expects_value st = true →
  (length stack ≤ max_nesting < length stack + k)%nat →
  Json.run (Json.mk Json.LStart st stack) (open_arrays_text k)
    = Raise RecursionError.
Proof.
  revert st stack. induction k as [|k IH]; intros st stack Hst Hk; [lia|].
  change (Json.run ?d (open_arrays_text (S k)))
    with (d' ← Json.shift st Json.TLBracket stack;
          Json.run d' (open_arrays_text k)).
  assert (Json.parse_step st Json.TLBracket stack
          = Json.nest Json.PArrayStart (Json.FArray []) stack) as Hp.
  { by destruct st. }
  unfold Json.shift. rewrite Hp. unfold Json.nest.
  destruct (Nat.leb_spec max_nesting (length stack)); [done|].
  cbn [mbind result_bind]. apply IH; [done | simpl; lia].
Qed.

Lemma loads_open_arrays_text `{Interpreter} (n : nat) :
  (max_nesting < n)%nat →
  Json.loads (VStr (open_arrays_text n)) = Raise RecursionError.
Proof. intros Hn. apply run_open_arrays; [done | simpl; lia]. Qed.

Lemma list_comprehension_first_error {A B : Type} (f : A → result B)
    (xs : list A) :
  match first_error f xs with
  | Some e =>
      list_comprehension f xs = Raise e ∧ ∃ x, x ∈ xs ∧ f x = Raise e
  | None =>
      ∃ ys, list_comprehension f xs = Ok ys ∧
            Forall2 (λ x y, f x = Ok y) xs ys
  end.
Proof.
  induction xs as [|x xs IH]; simpl.
  - exists []. by split.
  - destruct (f x) as [y|e] eqn:Hx; simpl.
    + destruct (first_error f xs) as [e|].
      * destruct IH as (-> & x' & Hin & Hx'). split; [done|].
        exists x'. split; [by right | done].
      * destruct IH as (ys & -> & Hall). exists (y :: ys).
        split; [done | by constructor].
    + split; [done|]. exists x. split; [by left | done].
Qed.

Lemma dict_of_pairs_snoc (ps : list (string * value)) (k : string) (v : value) :
  dict_of_pairs (ps ++ [(k, v)]) = <[k := v]> (dict_of_pairs ps).
Proof. unfold dict_of_pairs. by rewrite foldl_snoc. Qed.

Lemma dom_dict_of_pairs (ps : list (string * value)) :
  dom (dict_of_pairs ps) = list_to_set ps.*1.
Proof.
  induction ps as [|[k v] ps IH] using rev_ind; [set_solver|].
  rewrite dict_of_pairs_snoc, dom_insert_L, IH, fmap_app, list_to_set_app_L.
  simpl. set_solver.
Qed.

Lemma zip_take_min {A B : Type} (xs : list A) (ys : list B) :
  zip xs ys = zip (take (length ys) xs) (take (length xs) ys).
Proof.
  revert ys. induction xs as [|x xs IH]; intros [|y ys]; simpl; [done..|].
  by rewrite <- IH.
Qed.

Lemma fst_zip_take {A B : Type} (xs : list A) (ys : list B) :
  (zip xs ys).*1 = take (length ys) xs.
Proof.
  revert ys. induction xs as [|x xs IH]; intros [|y ys]; simpl; [done..|].
  by rewrite IH.
Qed.

(** Parsing a payload decodes every column value, and raises what the
    first of them that raises does; the lengths of the two column
    sequences play no part. *)
Lemma from_dict_spec `{Interpreter} (data : Change.t) :
  match first_error WALRow.transform_to_dict_if_json
          (Change.columnvalues data) with
  | Some e => WALRow.from_dict data = Raise e
  | None =>
      ∃ decoded,
        Forall2 (λ v d, WALRow.transform_to_dict_if_json v = Ok d)
                (Change.columnvalues data) decoded ∧
        WALRow.from_dict data =
          Ok (WALRow.mk (Change.kind data) (Change.schema data)
                (Change.table data) (Change.columnnames data)
                (Change.columntypes data) (Change.columnvalues data)
                (dict_of_pairs (zip (Change.columnnames data) decoded)))
  end.
Proof.
  pose proof (list_comprehension_first_error WALRow.transform_to_dict_if_json
                (Change.columnvalues data)) as Hc.
  unfold WALRow.from_dict.
  destruct (first_error _ _) as [e|].
  - destruct Hc as [-> _]. done.
  - destruct Hc as (decoded & -> & Hall). by exists decoded.
Qed.

Lemma from_dict_inv `{Interpreter} (data : Change.t) (row : WALRow.t) :
  WALRow.from_dict data = Ok row →
  ∃ decoded,
    Forall2 (λ v d, WALRow.transform_to_dict_if_json v = Ok d)
            (Change.columnvalues data) decoded ∧
    row = WALRow.mk (Change.kind data) (Change.schema data)
            (Change.table data) (Change.columnnames data)
            (Change.columntypes data) (Change.columnvalues data)
            (dict_of_pairs (zip (Change.columnnames data) decoded)).
Proof.
  pose proof (from_dict_spec data) as Hs. intros Hrow.
  destruct (first_error _ _); [by rewrite Hs in Hrow|].
  destruct Hs as (decoded & Hall & Hs). rewrite Hs in Hrow.
  injection Hrow as <-. by exists decoded.
Qed.

Lemma from_dict_raises `{Interpreter} (data : Change.t) (e : exn) :
  WALRow.from_dict data = Raise e →
  first_error WALRow.transform_to_dict_if_json (Change.columnvalues data)
    = Some e ∧
  (e = ValueError ∨ e = RecursionError).
Proof.
  pose proof (from_dict_spec data) as Hs.
  pose proof (list_comprehension_first_error WALRow.transform_to_dict_if_json
                (Change.columnvalues data)) as Hc.
  intros Hr. destruct (first_error _ _) as [e'|].
  - rewrite Hs in Hr. injection Hr as ->. split; [done|].
    destruct Hc as (_ & v & _ & Hv).
    apply transform_raises in Hv as (_ & s & _ & [[? _] | [? _]]);
      [by left | by right].
  - destruct Hs as (? & _ & Hs). by rewrite Hs in Hr.
Qed.

Lemma from_dict_reference_change `{Interpreter} (text : string) (e : exn) :
  WALRow.transform_to_dict_if_json (VStr text) = Raise e →
  WALRow.from_dict (reference_change text) = Raise e.
Proof. intros Ht. unfold WALRow.from_dict. simpl. by rewrite Ht. Qed.



(** C8: the decode keeps whatever [json.loads] returns, not only objects:
    the text [123] becomes the integer 123, the text [null] becomes [None],
    the text of an array becomes a list.  In the row parsed from a payload
    whose [amount] column holds the text [123], the derived mapping has the
    integer; and the raw [column_values], from which join keys are taken,
    still has the text. *)
Theorem transform_decodes_json_scalars :
  WALRow.transform_to_dict_if_json (VStr "123") = Ok (VInt 123) ∧
  WALRow.transform_to_dict_if_json (VStr "null") = Ok VNone ∧
  WALRow.transform_to_dict_if_json (VStr "[2]") = Ok (VList [VInt 2]) ∧
  WALRow.transform_to_dict_if_json (VStr ("{" ++ quoted "a" ++ ": 1}"))
    = Ok (VDict [("a", VInt 1)]) ∧
  WALRow.transform_to_dict_if_json (VStr "sale") = Ok (VStr "sale") ∧
  ∃ row, WALRow.from_dict text_amount_change = Ok row ∧
         WALRow.column_names_values row !! "amount" = Some (VInt 123) ∧
         WALRow.column_values row !! 1%nat = Some (VStr "123").
Proof.
  repeat split; try (vm_compute; reflexivity).
  eexists. split; [vm_compute; reflexivity|]. split; vm_compute; reflexivity.
Qed.

(** C4, as the code has it: for a payload whose [columnnames] and
    [columnvalues] differ in length, the difference is no error and nothing
    raises a [MalformedRecordError].  Every column value is decoded, those
    beyond the shorter length too: when one of the decodes raises, parsing
    raises that [ValueError] or [RecursionError]; otherwise the payload is
    parsed into a row that stores both sequences as they came, its derived
    mapping built from the positional zip cut to the shorter of the two. *)
Theorem from_dict_mismatched_lengths `{Interpreter} (data : Change.t) :
  length (Change.columnnames data) ≠ length (Change.columnvalues data) →
  WALRow.from_dict data ≠ Raise MalformedRecordError ∧
  match first_error WALRow.transform_to_dict_if_json
          (Change.columnvalues data) with
  | Some e =>
      WALRow.from_dict data = Raise e ∧ (e = ValueError ∨ e = RecursionError)
  | None =>
      ∃ row decoded,
        WALRow.from_dict data = Ok row ∧
        WALRow.column_names row = Change.columnnames data ∧
        WALRow.column_values row = Change.columnvalues data ∧
        Forall2 (λ v d, WALRow.transform_to_dict_if_json v = Ok d)
                (Change.columnvalues data) decoded ∧
        let n := (length (Change.columnnames data)
                    `min` length (Change.columnvalues data))%nat in
        WALRow.column_names_values row =
          dict_of_pairs
            (zip (take n (Change.columnnames data)) (take n decoded)) ∧
        dom (WALRow.column_names_values row) =
          list_to_set (take n (Change.columnnames data))
  end.
Proof.
  intros _. split.
  { intros Hr. by apply from_dict_raises in Hr as [_ [? | ?]]. }
  pose proof (from_dict_spec data) as Hs.
  destruct (first_error _ _) as [e|] eqn:Hf.
  { split; [done|]. by apply from_dict_raises in Hs as [_ ?]. }
  destruct Hs as (decoded & Hall & ->).
  eexists. exists decoded. split; [done|]. simpl.
  pose proof (Forall2_length _ _ _ Hall) as Hlen.
  assert (Hn : ∀ {A} (xs : list A) m,
             take (length xs `min` m) xs = take m xs).
  { intros A xs m. rewrite <- take_take. apply take_ge. rewrite length_take. lia. }
  assert (Hd : take (length (Change.columnnames data)
                       `min` length (Change.columnvalues data)) decoded
               = take (length (Change.columnnames data)) decoded).
  { rewrite Hlen, Nat.min_comm. apply Hn. }
  repeat split; [done|..].
  - rewrite Hn, Hd, Hlen. apply (f_equal dict_of_pairs), zip_take_min.
  - rewrite dom_dict_of_pairs, fst_zip_take, Hn. by rewrite Hlen.
Qed.

Lemma from_dict_mismatched_lengths_witness :
  WALRow.from_dict short_values_change ≠ Raise MalformedRecordError ∧
  ∃ row decoded,
    WALRow.from_dict short_values_change = Ok row ∧
    WALRow.column_names row = ["transaction_id"; "amount"] ∧
    WALRow.column_values row = [VInt 2] ∧
    Forall2 (λ v d, WALRow.transform_to_dict_if_json v = Ok d)
            [VInt 2] decoded ∧
    WALRow.column_names_values row =
      dict_of_pairs (zip ["transaction_id"] (take 1 decoded)) ∧
    dom (WALRow.column_names_values row) = list_to_set ["transaction_id"].
Proof.
  apply (from_dict_mismatched_lengths short_values_change).
  vm_compute. discriminate.
Defined.

(** C4, as the specification has it, fails: the payload with two names and
    one value is parsed into a row whose mapping has the first name only. *)
Lemma from_dict_accepts_mismatched_lengths :
  length (Change.columnnames short_values_change)
    ≠ length (Change.columnvalues short_values_change) ∧
  WALRow.from_dict short_values_change ≠ Raise MalformedRecordError ∧
  WALRow.from_dict short_values_change =
    Ok (WALRow.mk (VStr "insert") (VStr "public") "transaction"
          ["transaction_id"; "amount"] [] [VInt 2]
          {["transaction_id" := VInt 2]}).
Proof.
  split; [vm_compute; discriminate|].
  split; [vm_compute; discriminate | vm_compute; reflexivity].
Qed.

(** ** Extraction and the accumulator *)

Lemma insertable_values_lookup (keys : list string) (row : WALRow.t)
    (field : string) :
  WALRow.insertable_values keys row !! field =
  dict_get (WALRow.column_names_values row) <$> source_column keys field.
Proof.
  unfold WALRow.insertable_values, source_column.
  induction keys as [|k keys IH] using rev_ind; [done|].
  rewrite !foldl_snoc.
  destruct (String.eqb_spec (last_segment k) field) as [->|Hne].
  - by rewrite lookup_insert_eq.
  - by rewrite lookup_insert_ne.
Qed.

Lemma insertable_values_dom (keys : list string) (row : WALRow.t) :
  dom (WALRow.insertable_values keys row) = list_to_set (last_segment <$> keys).
Proof.
  unfold WALRow.insertable_values.
  induction keys as [|k keys IH] using rev_ind; [set_solver|].
  rewrite foldl_snoc, dom_insert_L, IH, fmap_app, list_to_set_app_L. set_solver.
Qed.

Lemma insertable_values_fields (keys : list string) (row : WALRow.t) :
  forallb (λ k, bool_decide (last_segment k ∈ InsertableRow.fields)) keys = true →
  dom (WALRow.insertable_values keys row) ⊆ list_to_set InsertableRow.fields.
Proof.
  rewrite insertable_values_dom, forallb_forall. intros Hall x.
  rewrite !elem_of_list_to_set, list_elem_of_fmap. intros (k & -> & Hk).
  apply list_elem_of_In, Hall in Hk. by apply bool_decide_eq_true_1 in Hk.
Qed.

(** [update] overwrites: a key of [other] takes the value [other] has. *)
Lemma dict_update_lookup (d other : gmap string value) (k : string) :
  dict_update d other !! k =
  match other !! k with Some v => Some v | None => d !! k end.
Proof. unfold dict_update. rewrite lookup_union. by destruct (other !! k), (d !! k). Qed.

Lemma dict_get_update (d other : gmap string value) (k : string) :
  dict_get (dict_update d other) k =
  match other !! k with Some v => v | None => dict_get d k end.
Proof. unfold dict_get. rewrite dict_update_lookup. by destruct (other !! k). Qed.

Ltac eval_source_columns :=
  repeat match goal with
  | |- context [source_column ?ks ?k] =>
      let r := eval vm_compute in (source_column ks k) in
      change (source_column ks k) with r
  end.

Ltac unfold_extractions :=
  unfold EventV2DataRow.get_insertable_values,
    TransactionsRow.get_insertable_values,
    TransactionRequestsRow.get_insertable_values,
    PaymentInstrumentTokenDataRow.get_insertable_values.

Lemma accumulated_fields ev tx tr p :
  dom (accumulated ev tx tr p) ⊆ list_to_set InsertableRow.fields.
Proof.
  assert (He := insertable_values_fields EventV2DataRow.keys ev eq_refl).
  assert (Ht := λ r, insertable_values_fields TransactionsRow.keys r eq_refl).
  assert (Hr := λ r,
            insertable_values_fields TransactionRequestsRow.keys r eq_refl).
  assert (Hp := λ r,
            insertable_values_fields PaymentInstrumentTokenDataRow.keys r eq_refl).
  unfold accumulated, merge_hop, dict_update.
  destruct tx, tr, p; rewrite ?dom_union_L; repeat apply union_least; done.
Qed.

(** Every key of the accumulator is a field of [InsertableRow]: the
    constructor accepts it, and each field has the value of the last hop
    that produced it. *)
Lemma init_accumulated ev tx tr p :
  InsertableRow.init (accumulated ev tx tr p) = Ok (joined_row ev tx tr p).
Proof.
  unfold InsertableRow.init. rewrite decide_True by apply accumulated_fields.
  unfold accumulated, joined_row, merge_hop, hop_value.
  destruct tx as [tx|], tr as [tr|], p as [p|]; cbv zeta;
    rewrite ?dict_get_update; unfold_extractions;
    rewrite ?insertable_values_lookup; eval_source_columns; simpl;
    unfold dict_get at 1 2 3 4 5 6 7 8 9 10 11 12 13 14 15;
    rewrite ?insertable_values_lookup; eval_source_columns; reflexivity.
Qed.

(** ** The join of one event *)

Lemma merged_row_spec (self : WalRecordsProcessor.t) (ev : WALRow.t) :
  WalRecordsProcessor.merged_row self ev =
    tx ← index_get (WalRecordsProcessor.transaction_rows self)
           (dict_get (WALRow.column_names_values ev) "transaction_id");
    tr ← index_get (WalRecordsProcessor.transaction_request_rows self)
           (dict_get (WALRow.column_names_values ev) "flow_id");
    p ← token_lookup self tr;
    Ok (accumulated ev tx tr p).
Proof.
  unfold WalRecordsProcessor.merged_row.
  destruct (index_get (WalRecordsProcessor.transaction_rows self) _)
    as [tx|]; [simpl | done].
  destruct (index_get (WalRecordsProcessor.transaction_request_rows self) _)
    as [tr|]; [simpl | done].
  destruct (token_lookup self tr) as [p|] eqn:Hp;
    unfold token_lookup in Hp; destruct tr; rewrite Hp; try done.
Qed.

Lemma merge_row_spec (self : WalRecordsProcessor.t) (ev : WALRow.t) :
  WalRecordsProcessor.merge_row self ev =
    tx ← index_get (WalRecordsProcessor.transaction_rows self)
           (dict_get (WALRow.column_names_values ev) "transaction_id");
    tr ← index_get (WalRecordsProcessor.transaction_request_rows self)
           (dict_get (WALRow.column_names_values ev) "flow_id");
    p ← token_lookup self tr;
    Ok (joined_row ev tx tr p).
Proof.
  unfold WalRecordsProcessor.merge_row. rewrite merged_row_spec.
  destruct (index_get (WalRecordsProcessor.transaction_rows self) _)
    as [tx|]; [simpl | done].
  destruct (index_get (WalRecordsProcessor.transaction_request_rows self) _)
    as [tr|]; [simpl | done].
  destruct (token_lookup self tr) as [p|]; [simpl | done].
  apply init_accumulated.
Qed.

Ltac invert_merge H tx tr p :=
  let Htx := fresh "Htx" in
  let Htr := fresh "Htr" in
  let Hp := fresh "Hp" in
  rewrite merge_row_spec in H;
  apply bind_ok in H as (tx & Htx & H);
  apply bind_ok in H as (tr & Htr & H);
  apply bind_ok in H as (p & Hp & H);
  injection H as <-.

Lemma index_get_hashable {A : Type} (index : gmap key A) (v : value) :
  hashable v = true → ∃ k, hash_key v = Ok k ∧ index_get index v = Ok (index !! k).
Proof. unfold index_get. destruct v; try done; intros _; eexists; by split. Qed.

Lemma index_get_unhashable {A : Type} (index : gmap key A) (v : value) :
  hashable v = false → index_get index v = Raise TypeError.
Proof. by destruct v. Qed.

(** An absent or null key value is looked up under the key [None]. *)
Lemma index_get_none {A : Type} (index : gmap key A) (d : gmap string value)
    (column : string) :
  d !! column = None ∨ d !! column = Some VNone →
  index_get index (dict_get d column) = Ok (index !! KNone).
Proof. unfold dict_get. by intros [-> | ->]. Qed.

(** The join of one event returns exactly when its lookup keys are
    hashable; otherwise a lookup raises [TypeError]. *)
Lemma merge_row_ok_iff (self : WalRecordsProcessor.t) (ev : WALRow.t) :
  keys_hashable self ev = true ↔
  ∃ row, WalRecordsProcessor.merge_row self ev = Ok row.
Proof.
  rewrite merge_row_spec. unfold keys_hashable.
  destruct (hashable (dict_get (WALRow.column_names_values ev) "transaction_id"))
    eqn:H1; simpl.
  2: { rewrite (index_get_unhashable _ _ H1). split; [done | by intros [? ?]]. }
  destruct (index_get_hashable (WalRecordsProcessor.transaction_rows self) _ H1)
    as (k1 & _ & ->). simpl.
  destruct (hashable (dict_get (WALRow.column_names_values ev) "flow_id"))
    eqn:H2; simpl.
  2: { rewrite (index_get_unhashable _ _ H2). split; [done | by intros [? ?]]. }
  destruct (index_get_hashable
              (WalRecordsProcessor.transaction_request_rows self) _ H2)
    as (k2 & _ & ->). simpl.
  destruct (WalRecordsProcessor.transaction_request_rows self !! k2)
    as [tr|]; simpl; [|by split; eauto].
  destruct (hashable (dict_get (WALRow.column_names_values tr) "token_id"))
    eqn:H3.
  - destruct (index_get_hashable
                (WalRecordsProcessor.payment_instrument_token_data_rows self)
                _ H3) as (k3 & _ & ->). simpl. split; eauto.
  - rewrite (index_get_unhashable _ _ H3). split; [done | by intros [? ?]].
Qed.

(** ** The join phase *)

Lemma merge_rows_spec (self acc : WalRecordsProcessor.t) (events : list WALRow.t) :
  for_each
    (λ acc ev, row ← WalRecordsProcessor.merge_row self ev;
               Ok (WalRecordsProcessor.append_row acc row))
    events acc =
  rows ← list_comprehension (WalRecordsProcessor.merge_row self) events;
  Ok (WalRecordsProcessor.mk
        (WalRecordsProcessor.event_v2_data_rows acc)
        (WalRecordsProcessor.transaction_rows acc)
        (WalRecordsProcessor.transaction_request_rows acc)
        (WalRecordsProcessor.payment_instrument_token_data_rows acc)
        (WalRecordsProcessor.insertable_rows acc ++ rows)
        (WalRecordsProcessor.warnings acc)).
Proof.
  revert acc. induction events as [|ev events IH]; intros acc; simpl.
  - rewrite app_nil_r. by destruct acc.
  - destruct (WalRecordsProcessor.merge_row self ev) as [row|]; simpl; [|done].
    rewrite IH.
    destruct (list_comprehension (WalRecordsProcessor.merge_row self) events);
      simpl; [|done].
    by rewrite <- app_assoc.
Qed.

(** C2, as the code has it: when the lookup keys of every event are
    hashable, the join phase returns, and it has appended to
    [insertable_rows] exactly one Output Row per Event row, the row of the
    i-th event at the i-th place, whichever hops matched; the event list and
    the three indexes are as they were. *)
Theorem one_output_row_per_event (self : WalRecordsProcessor.t) :
  forallb (keys_hashable self) (WalRecordsProcessor.event_v2_data_rows self)
    = true →
  ∃ self' rows,
    WalRecordsProcessor.merge_insertable_rows self = Ok self' ∧
    WalRecordsProcessor.insertable_rows self'
      = (WalRecordsProcessor.insertable_rows self ++ rows)%list ∧
    length rows = length (WalRecordsProcessor.event_v2_data_rows self) ∧
    Forall2 (λ ev row, WalRecordsProcessor.merge_row self ev = Ok row)
            (WalRecordsProcessor.event_v2_data_rows self) rows ∧
    WalRecordsProcessor.event_v2_data_rows self'
      = WalRecordsProcessor.event_v2_data_rows self ∧
    WalRecordsProcessor.transaction_rows self'
      = WalRecordsProcessor.transaction_rows self ∧
    WalRecordsProcessor.transaction_request_rows self'
      = WalRecordsProcessor.transaction_request_rows self ∧
    WalRecordsProcessor.payment_instrument_token_data_rows self'
      = WalRecordsProcessor.payment_instrument_token_data_rows self.
Proof.
  intros Hall. rewrite forallb_forall in Hall.
  destruct (list_comprehension_ok (WalRecordsProcessor.merge_row self)
              (WalRecordsProcessor.event_v2_data_rows self))
    as (rows & Hrows & Hall2).
  { intros ev Hev. apply merge_row_ok_iff, Hall. by apply list_elem_of_In. }
  unfold WalRecordsProcessor.merge_insertable_rows.
  rewrite merge_rows_spec, Hrows. simpl.
  eexists. exists rows. split; [done|]. simpl.
  repeat split; try done. symmetry. by eapply Forall2_length.
Qed.

Lemma one_output_row_per_event_witness :
  ∃ self' rows,
    WalRecordsProcessor.merge_insertable_rows (loaded unmatched_batch)
      = Ok self' ∧
    WalRecordsProcessor.insertable_rows self'
      = (WalRecordsProcessor.insertable_rows (loaded unmatched_batch)
           ++ rows)%list ∧
    length rows
      = length (WalRecordsProcessor.event_v2_data_rows (loaded unmatched_batch)) ∧
    Forall2 (λ ev row,
               WalRecordsProcessor.merge_row (loaded unmatched_batch) ev = Ok row)
            (WalRecordsProcessor.event_v2_data_rows (loaded unmatched_batch))
            rows ∧
    WalRecordsProcessor.event_v2_data_rows self'
      = WalRecordsProcessor.event_v2_data_rows (loaded unmatched_batch) ∧
    WalRecordsProcessor.transaction_rows self'
      = WalRecordsProcessor.transaction_rows (loaded unmatched_batch) ∧
    WalRecordsProcessor.transaction_request_rows self'
      = WalRecordsProcessor.transaction_request_rows (loaded unmatched_batch) ∧
    WalRecordsProcessor.payment_instrument_token_data_rows self'
      = WalRecordsProcessor.payment_instrument_token_data_rows
          (loaded unmatched_batch).
Proof.
  apply (one_output_row_per_event (loaded unmatched_batch)).
  vm_compute. reflexivity.
Defined.

(** C2, as the specification has it, fails: the batch is loaded, its one
    event has the text of a JSON array in [transaction_id], the derived
    mapping holds the decoded list, and the first lookup of the join phase
    raises [TypeError]: no Output Row is appended for the event. *)
Lemma join_raises_on_array_key :
  (∃ self, WalRecordsProcessor.load WalRecordsProcessor.new array_key_batch
             = Ok self ∧
           length (WalRecordsProcessor.event_v2_data_rows self) = 1%nat) ∧
  WalRecordsProcessor.merge_insertable_rows (loaded array_key_batch)
    = Raise TypeError.
Proof.
  split; [eexists; split; vm_compute; reflexivity | vm_compute; reflexivity].
Qed.

(** C1: the PaymentInstrumentTokenData lookup follows the
    TransactionRequest lookup.  Take an event whose join returns the Output
    Row [row].  When the TransactionRequest index has no row for the event's
    [flow_id], the three PaymentInstrumentTokenData fields of [row] are
    [None], and [row] is the same whatever the PaymentInstrumentTokenData
    index holds.  When it has the row [request], the third lookup is made
    with the [token_id] of [request], the three fields are those of the row
    it finds ([None] if it finds none), and [row] depends on the
    PaymentInstrumentTokenData index through that one lookup only. *)
Theorem token_lookup_follows_request
    (self : WalRecordsProcessor.t) (ev : WALRow.t) (row : InsertableRow.t) :
  WalRecordsProcessor.merge_row self ev = Ok row →
  match index_get (WalRecordsProcessor.transaction_request_rows self)
          (dict_get (WALRow.column_names_values ev) "flow_id") with
  | Ok None =>
      InsertableRow.three_d_secure_authentication row = VNone ∧
      InsertableRow.payment_instrument_type row = VNone ∧
      InsertableRow.customer_id row = VNone ∧
      ∀ tokens,
        WalRecordsProcessor.merge_row (with_tokens self tokens) ev = Ok row
  | Ok (Some request) =>
      ∃ token,
        index_get (WalRecordsProcessor.payment_instrument_token_data_rows self)
          (dict_get (WALRow.column_names_values request) "token_id")
          = Ok token ∧
        InsertableRow.three_d_secure_authentication row
          = hop_value token "three_d_secure_authentication" VNone ∧
        InsertableRow.payment_instrument_type row
          = hop_value token "payment_instrument_type" VNone ∧
        InsertableRow.customer_id row
          = hop_value token "vault_data.customer_id" VNone ∧
        ∀ tokens,
          index_get tokens
            (dict_get (WALRow.column_names_values request) "token_id")
            = Ok token →
          WalRecordsProcessor.merge_row (with_tokens self tokens) ev = Ok row
  | Raise _ => False
  end.
Proof.
  intros H. invert_merge H tx tr p. rewrite Htr.
  destruct tr as [request|]; simpl in Hp.
  - exists p. repeat split; try done.
    intros tokens Ht. rewrite merge_row_spec. simpl.
    rewrite Htx, Htr. simpl. by rewrite Ht.
  - injection Hp as <-. repeat split; try done.
    intros tokens. rewrite merge_row_spec. simpl. by rewrite Htx, Htr.
Qed.

Lemma token_lookup_follows_request_witness :
  is_Some (WalRecordsProcessor.payment_instrument_token_data_rows
             (loaded unmatched_batch) !! KInt 3) ∧
  InsertableRow.three_d_secure_authentication unmatched_output = VNone ∧
  InsertableRow.payment_instrument_type unmatched_output = VNone ∧
  InsertableRow.customer_id unmatched_output = VNone ∧
  ∀ tokens,
    WalRecordsProcessor.merge_row
      (with_tokens (loaded unmatched_batch) tokens)
      (first_event (loaded unmatched_batch)) = Ok unmatched_output.
Proof.
  split; [eexists; vm_compute; reflexivity|].
  apply (token_lookup_follows_request (loaded unmatched_batch)
           (first_event (loaded unmatched_batch)) unmatched_output).
  vm_compute. reflexivity.
Defined.

(** C3, as the code has it: for an event whose lookup keys are hashable the
    join raises no error, and a hop whose key is absent from its index
    contributes no field.  Without a Transaction match the five fields only
    the Transaction produces are [None] and [created_at] is the event's own;
    without a TransactionRequest match [payment_method] and the three
    PaymentInstrumentTokenData fields are [None]; with a TransactionRequest
    match whose [token_id] finds nothing the three fields are [None].  A key
    value that is absent or null on the source row is no reason to skip the
    hop: the hop is made with the key [None].  For an event without a
    [transaction_id], or with a null one, the Transaction fields of the
    Output Row are those of the row the Transaction index holds under
    [None], if it holds one; likewise [payment_method] for [flow_id] and the
    TransactionRequest index, and the three PaymentInstrumentTokenData
    fields for the [token_id] of the matched TransactionRequest row. *)
Theorem unmatched_hop_contributes_nothing
    (self : WalRecordsProcessor.t) (ev : WALRow.t) :
  keys_hashable self ev = true →
  ∃ row,
    WalRecordsProcessor.merge_row self ev = Ok row ∧
    (index_get (WalRecordsProcessor.transaction_rows self)
       (dict_get (WALRow.column_names_values ev) "transaction_id") = Ok None →
     InsertableRow.transaction_id row = VNone ∧
     InsertableRow.transaction_type row = VNone ∧
     InsertableRow.amount row = VNone ∧
     InsertableRow.currency_code row = VNone ∧
     InsertableRow.processor_merchant_account_id row = VNone ∧
     InsertableRow.created_at row
       = dict_get (WALRow.column_names_values ev) "created_at") ∧
    (index_get (WalRecordsProcessor.transaction_request_rows self)
       (dict_get (WALRow.column_names_values ev) "flow_id") = Ok None →
     InsertableRow.payment_method row = VNone ∧
     InsertableRow.three_d_secure_authentication row = VNone ∧
     InsertableRow.payment_instrument_type row = VNone ∧
     InsertableRow.customer_id row = VNone) ∧
    (∀ request,
       index_get (WalRecordsProcessor.transaction_request_rows self)
         (dict_get (WALRow.column_names_values ev) "flow_id")
         = Ok (Some request) →
       index_get (WalRecordsProcessor.payment_instrument_token_data_rows self)
         (dict_get (WALRow.column_names_values request) "token_id")
         = Ok None →
       InsertableRow.three_d_secure_authentication row = VNone ∧
       InsertableRow.payment_instrument_type row = VNone ∧
       InsertableRow.customer_id row = VNone) ∧
    (WALRow.column_names_values ev !! "transaction_id" = None ∨
     WALRow.column_names_values ev !! "transaction_id" = Some VNone →
     let transaction := WalRecordsProcessor.transaction_rows self !! KNone in
     InsertableRow.transaction_id row
       = hop_value transaction "transaction_id" VNone ∧
     InsertableRow.transaction_type row
       = hop_value transaction "transaction_type" VNone ∧
     InsertableRow.amount row = hop_value transaction "amount" VNone ∧
     InsertableRow.currency_code row
       = hop_value transaction "currency_code" VNone ∧
     InsertableRow.processor_merchant_account_id row
       = hop_value transaction "processor_merchant_account_id" VNone ∧
     InsertableRow.created_at row
       = hop_value transaction "created_at"
           (dict_get (WALRow.column_names_values ev) "created_at")) ∧
    (WALRow.column_names_values ev !! "flow_id" = None ∨
     WALRow.column_names_values ev !! "flow_id" = Some VNone →
     let request :=
       WalRecordsProcessor.transaction_request_rows self !! KNone in
     InsertableRow.payment_method row
       = hop_value request "vault_options.payment_method" VNone ∧
     ∃ token,
       token_lookup self request = Ok token ∧
       InsertableRow.three_d_secure_authentication row
         = hop_value token "three_d_secure_authentication" VNone ∧
       InsertableRow.payment_instrument_type row
         = hop_value token "payment_instrument_type" VNone ∧
       InsertableRow.customer_id row
         = hop_value token "vault_data.customer_id" VNone) ∧
    (∀ request,
       index_get (WalRecordsProcessor.transaction_request_rows self)
         (dict_get (WALRow.column_names_values ev) "flow_id")
         = Ok (Some request) →
       WALRow.column_names_values request !! "token_id" = None ∨
       WALRow.column_names_values request !! "token_id" = Some VNone →
       let token :=
         WalRecordsProcessor.payment_instrument_token_data_rows self
           !! KNone in
       InsertableRow.three_d_secure_authentication row
         = hop_value token "three_d_secure_authentication" VNone ∧
       InsertableRow.payment_instrument_type row
         = hop_value token "payment_instrument_type" VNone ∧
       InsertableRow.customer_id row
         = hop_value token "vault_data.customer_id" VNone).
Proof.
  intros Hk. apply merge_row_ok_iff in Hk as [row H]. exists row.
  split; [done|]. invert_merge H tx tr p.
  split; [|split; [|split; [|split; [|split]]]].
  - rewrite Htx. by intros [= ->].
  - rewrite Htr. intros [= ->]. simpl in Hp. by injection Hp as <-.
  - intros request. rewrite Htr. intros [= ->]. simpl in Hp. rewrite Hp.
    by intros [= ->].
  - intros Hnull. rewrite (index_get_none _ _ _ Hnull) in Htx.
    by injection Htx as <-.
  - intros Hnull. rewrite (index_get_none _ _ _ Hnull) in Htr.
    injection Htr as <-. cbv zeta. split; [done|]. by exists p.
  - intros request. rewrite Htr. intros [= ->] Hnull. simpl in Hp.
    rewrite (index_get_none _ _ _ Hnull) in Hp. by injection Hp as <-.
Qed.

Lemma unmatched_hop_contributes_nothing_witness :
  (∃ row,
     WalRecordsProcessor.merge_row (loaded unmatched_batch)
       (first_event (loaded unmatched_batch)) = Ok row ∧
     InsertableRow.payment_method row = VNone ∧
     InsertableRow.three_d_secure_authentication row = VNone ∧
     InsertableRow.payment_instrument_type row = VNone ∧
     InsertableRow.customer_id row = VNone) ∧
  (∃ row,
     WalRecordsProcessor.merge_row (loaded null_key_batch)
       (first_event (loaded null_key_batch)) = Ok row ∧
     InsertableRow.transaction_type row = VStr "sale").
Proof.
  split.
  - destruct (unmatched_hop_contributes_nothing (loaded unmatched_batch)
                (first_event (loaded unmatched_batch)))
      as (row & Hrow & _ & Hrequest & _).
    + vm_compute. reflexivity.
    + exists row. split; [exact Hrow|]. apply Hrequest. vm_compute. reflexivity.
  - destruct (unmatched_hop_contributes_nothing (loaded null_key_batch)
                (first_event (loaded null_key_batch)))
      as (row & Hrow & _ & _ & _ & Hnull & _).
    + vm_compute. reflexivity.
    + exists row. split; [exact Hrow|].
      destruct Hnull as (_ & -> & _); [left|]; vm_compute; reflexivity.
Defined.

(** C3, as the specification has it, fails twice.  An event with no
    [transaction_id] column looks the Transaction index up under [None] and
    takes the fields of the Transaction row whose own [transaction_id] is
    null.  An event whose [flow_id] holds the text of a JSON object makes
    the join phase raise [TypeError]. *)
Lemma null_key_matches_and_object_key_raises :
  (WALRow.column_names_values (first_event (loaded null_key_batch))
     !! "transaction_id" = None ∧
   WalRecordsProcessor.merge_row (loaded null_key_batch)
     (first_event (loaded null_key_batch)) = Ok null_key_output ∧
   InsertableRow.transaction_type null_key_output = VStr "sale") ∧
  ((∃ self, WalRecordsProcessor.load WalRecordsProcessor.new object_key_batch
              = Ok self) ∧
   WalRecordsProcessor.merge_insertable_rows (loaded object_key_batch)
     = Raise TypeError).
Proof.
  split; [repeat split; vm_compute; reflexivity|].
  split; [eexists|]; vm_compute; reflexivity.
Qed.

(** C5: when the Transaction index has a row for the event's
    [transaction_id] and that row carries a [created_at] column, the Output
    Row's [created_at] is the Transaction row's value, whatever the event's
    own [created_at] is: updating the accumulator with the extraction of a
    matched row overwrites the fields already there. *)
Theorem created_at_from_transaction
    (self : WalRecordsProcessor.t) (ev tx : WALRow.t) (v : value)
    (row : InsertableRow.t) :
  WalRecordsProcessor.merge_row self ev = Ok row →
  index_get (WalRecordsProcessor.transaction_rows self)
    (dict_get (WALRow.column_names_values ev) "transaction_id")
    = Ok (Some tx) →
  WALRow.column_names_values tx !! "created_at" = Some v →
  InsertableRow.created_at row = v ∧
  ∀ acc : gmap string value,
    dict_update acc (TransactionsRow.get_insertable_values tx) !! "created_at"
      = Some v.
Proof.
  intros H Hm Hv. invert_merge H tx' tr p.
  rewrite Hm in Htx. injection Htx as <-. simpl. unfold dict_get.
  rewrite Hv. split; [done|]. intros acc.
  rewrite dict_update_lookup. unfold_extractions.
  rewrite insertable_values_lookup. eval_source_columns. simpl.
  unfold dict_get. by rewrite Hv.
Qed.

Lemma created_at_from_transaction_witness :
  WALRow.column_names_values (first_event (loaded sample_batch))
    !! "created_at" = Some (VStr "2023-05-01") ∧
  InsertableRow.created_at sample_output = VStr "2023-04-30".
Proof.
  split; [vm_compute; reflexivity|].
  refine (proj1 (created_at_from_transaction (loaded sample_batch)
           (first_event (loaded sample_batch))
           (WALRow.mk (VStr "insert") (VStr "public") "transaction"
              ["transaction_id"; "transaction_type"; "created_at"] []
              [VInt 2; VStr "sale"; VStr "2023-04-30"]
              (dict_of_pairs [("transaction_id", VInt 2);
                              ("transaction_type", VStr "sale");
                              ("created_at", VStr "2023-04-30")]))
           (VStr "2023-04-30") sample_output _ _ _));
    vm_compute; reflexivity.
Defined.

Lemma accumulated_transaction_lookup (ev tx : WALRow.t)
    (tr p : option WALRow.t) (column : string) :
  column ∈ TransactionsRow.keys →
  accumulated ev (Some tx) tr p !! column
    = Some (dict_get (WALRow.column_names_values tx) column).
Proof.
  intros Hc. unfold TransactionsRow.keys in Hc.
  repeat (apply elem_of_cons in Hc as [-> | Hc]);
    [..| by apply elem_of_nil in Hc];
    unfold accumulated, merge_hop; destruct tr, p;
    rewrite ?dict_update_lookup; unfold_extractions;
    rewrite ?insertable_values_lookup; eval_source_columns; reflexivity.
Qed.

(** C9: when the Transaction hop matches, the accumulator holds all six
    Transaction fields with the values the matched row has for them, [None]
    for a column the row lacks, and the Output Row has the same six values.
    In particular a Transaction row without [created_at] leaves [None] in
    the Output Row's [created_at], whatever the event's own [created_at]
    was. *)
Theorem transaction_fields_always_written
    (self : WalRecordsProcessor.t) (ev tx : WALRow.t) (row : InsertableRow.t) :
  WalRecordsProcessor.merge_row self ev = Ok row →
  index_get (WalRecordsProcessor.transaction_rows self)
    (dict_get (WALRow.column_names_values ev) "transaction_id")
    = Ok (Some tx) →
  let own := dict_get (WALRow.column_names_values tx) in
  (∃ merged_row,
     WalRecordsProcessor.merged_row self ev = Ok merged_row ∧
     InsertableRow.init merged_row = Ok row ∧
     ∀ column, column ∈ TransactionsRow.keys →
               merged_row !! column = Some (own column)) ∧
  InsertableRow.transaction_id row = own "transaction_id" ∧
  InsertableRow.transaction_type row = own "transaction_type" ∧
  InsertableRow.created_at row = own "created_at" ∧
  InsertableRow.amount row = own "amount" ∧
  InsertableRow.currency_code row = own "currency_code" ∧
  InsertableRow.processor_merchant_account_id row
    = own "processor_merchant_account_id" ∧
  (WALRow.column_names_values tx !! "created_at" = None →
   InsertableRow.created_at row = VNone).
Proof.
  intros H Hm own. pose proof H as Hrow. invert_merge H tx' tr p.
  rewrite Hm in Htx. injection Htx as <-.
  split; [|repeat split; try done].
  - exists (accumulated ev (Some tx) tr p). split; [|split].
    + rewrite merged_row_spec, Hm, Htr. simpl. by rewrite Hp.
    + apply init_accumulated.
    + intros column. apply accumulated_transaction_lookup.
  - simpl. unfold dict_get. by intros ->.
Qed.

Lemma transaction_fields_always_written_witness :
  WALRow.column_names_values (first_event (loaded unmatched_batch))
    !! "created_at" = Some (VStr "2023-05-01") ∧
  InsertableRow.created_at unmatched_output = VNone.
Proof.
  split; [vm_compute; reflexivity|].
  refine (proj2 (proj2 (proj2 (proj2 (proj2 (proj2 (proj2
           (transaction_fields_always_written (loaded unmatched_batch)
              (first_event (loaded unmatched_batch))
              (WALRow.mk (VStr "insert") (VStr "public") "transaction"
                 ["transaction_id"; "transaction_type"] []
                 [VInt 2; VStr "sale"]
                 (dict_of_pairs [("transaction_id", VInt 2);
                                 ("transaction_type", VStr "sale")]))
              unmatched_output _ _))))))) _);
    vm_compute; reflexivity.
Defined.

(** ** The build phase *)

Lemma list_index_ok (xs : list string) (x : string) (i : nat) :
  list_index xs x = Ok i ↔
  xs !! i = Some x ∧ ∀ j, (j < i)%nat → xs !! j ≠ Some x.
Proof.
  revert i. induction xs as [|y xs IH]; intros i; simpl.
  - split; [done | by intros [? _]].
  - destruct (String.eqb_spec y x) as [->|Hne].
    + split.
      * intros [= <-]. split; [done | lia].
      * intros [Hi Hfirst]. destruct i as [|i]; [done|].
        by destruct (Hfirst 0%nat ltac:(lia)).
    + rewrite bind_ok. split.
      * intros (i' & Hi' & [= <-]). apply IH in Hi' as [Hi' Hfirst].
        split; [done|]. intros [|j] Hj; simpl; [congruence|].
        apply Hfirst. lia.
      * intros [Hi Hfirst]. destruct i as [|i]; simpl in Hi; [congruence|].
        exists i. split; [|done]. apply IH. split; [done|].
        intros j Hj. apply (Hfirst (S j)). lia.
Qed.

Lemma list_index_absent (xs : list string) (x : string) :
  x ∉ xs → list_index xs x = Raise ValueError.
Proof.
  induction xs as [|y xs IH]; intros Hx; simpl; [done|].
  apply not_elem_of_cons in Hx as [Hne Hx].
  destruct (String.eqb_spec y x) as [->|_]; [done|]. by rewrite IH.
Qed.

Lemma list_index_present (xs : list string) (x : string) :
  x ∈ xs → ∃ i, list_index xs x = Ok i.
Proof.
  induction xs as [|y xs IH]; intros Hx; simpl; [by apply elem_of_nil in Hx|].
  destruct (String.eqb_spec y x) as [->|Hne]; [by exists 0%nat|].
  apply elem_of_cons in Hx as [-> | Hx]; [done|].
  destruct (IH Hx) as [i ->]. by exists (S i).
Qed.

Lemma join_key_absent (column : string) (row : WALRow.t) :
  column ∉ WALRow.column_names row →
  WALRow.join_key column row = Raise ValueError.
Proof. intros Hc. unfold WALRow.join_key. by rewrite list_index_absent. Qed.

Lemma from_dict_columns `{Interpreter} (data : Change.t) (row : WALRow.t) :
  WALRow.from_dict data = Ok row →
  WALRow.table row = Change.table data ∧
  WALRow.column_names row = Change.columnnames data ∧
  WALRow.column_values row = Change.columnvalues data.
Proof. intros Hrow. by apply from_dict_inv in Hrow as (decoded & _ & ->). Qed.

Ltac by_table c :=
  let Ht := fresh "Ht" in
  destruct (String.eqb_spec (Change.table c) "event_v2_data") as [Ht|?];
  [| destruct (String.eqb_spec (Change.table c) "transaction") as [Ht|?];
     [| destruct (String.eqb_spec (Change.table c) "transaction_request")
          as [Ht|?];
        [| destruct (String.eqb_spec (Change.table c)
                       "payment_instrument_token_data") as [Ht|?] ]]];
  try (rewrite Ht; simpl).

(** One turn of the loop of [load] writes at most one entry, in the index
    of the record's table, under the record's join key. *)
Lemma load_row_indexes `{Interpreter} (self self' : WalRecordsProcessor.t)
    (record : list Change.t) :
  WalRecordsProcessor.load_row self record = Ok self' →
  WalRecordsProcessor.transaction_rows self' =
    index_step (keyed_row "transaction" "transaction_id" record)
      (WalRecordsProcessor.transaction_rows self) ∧
  WalRecordsProcessor.transaction_request_rows self' =
    index_step (keyed_row "transaction_request" "flow_id" record)
      (WalRecordsProcessor.transaction_request_rows self) ∧
  WalRecordsProcessor.payment_instrument_token_data_rows self' =
    index_step (keyed_row "payment_instrument_token_data" "token_id" record)
      (WalRecordsProcessor.payment_instrument_token_data_rows self).
Proof.
  destruct record as [|c rest]; [done|].
  unfold WalRecordsProcessor.load_row, keyed_row. simpl.
  destruct self as [events transactions requests tokens insertable log].
  by_table c.
  - destruct (WALRow.from_dict c) as [row|]; [simpl|done]. by intros [= <-].
  - destruct (WALRow.from_dict c) as [row|]; [simpl|done].
    unfold index_set, TransactionsRow.get_join_key.
    destruct (WALRow.join_key "transaction_id" row) as [v|]; [simpl|done].
    destruct (hash_key v) as [k|]; [simpl|done]. by intros [= <-].
  - destruct (WALRow.from_dict c) as [row|]; [simpl|done].
    unfold index_set, TransactionRequestsRow.get_join_key.
    destruct (WALRow.join_key "flow_id" row) as [v|]; [simpl|done].
    destruct (hash_key v) as [k|]; [simpl|done]. by intros [= <-].
  - destruct (WALRow.from_dict c) as [row|]; [simpl|done].
    unfold index_set, PaymentInstrumentTokenDataRow.get_join_key.
    destruct (WALRow.join_key "token_id" row) as [v|]; [simpl|done].
    destruct (hash_key v) as [k|]; [simpl|done]. by intros [= <-].
  - by intros [= <-].
Qed.

(** Whether a turn of the loop raises does not depend on the processor. *)
Lemma load_row_ok_any `{Interpreter}
    (self self' other : WalRecordsProcessor.t) (record : list Change.t) :
  WalRecordsProcessor.load_row self record = Ok self' →
  ∃ other', WalRecordsProcessor.load_row other record = Ok other'.
Proof.
  destruct record as [|c rest]; [done|].
  unfold WalRecordsProcessor.load_row. simpl.
  destruct self as [events transactions requests tokens insertable log].
  destruct other as [events' transactions' requests' tokens' insertable' log'].
  by_table c; unfold index_set; eauto;
    (destruct (WALRow.from_dict c) as [row|]; [simpl|done]); eauto.
  - destruct (TransactionsRow.get_join_key row) as [v|]; [simpl|done].
    destruct (hash_key v) as [k|]; [simpl; eauto|done].
  - destruct (TransactionRequestsRow.get_join_key row) as [v|]; [simpl|done].
    destruct (hash_key v) as [k|]; [simpl; eauto|done].
  - destruct (PaymentInstrumentTokenDataRow.get_join_key row) as [v|];
      [simpl|done].
    destruct (hash_key v) as [k|]; [simpl; eauto|done].
Qed.

Lemma load_ok_any `{Interpreter} (data : list (list Change.t))
    (self self' other : WalRecordsProcessor.t) :
  WalRecordsProcessor.load self data = Ok self' →
  ∃ other', WalRecordsProcessor.load other data = Ok other'.
Proof.
  unfold WalRecordsProcessor.load. revert self self' other.
  induction data as [|record data IH]; intros self self' other; simpl; [eauto|].
  rewrite bind_ok. intros (s1 & H1 & Hrest).
  destruct (load_row_ok_any _ _ other _ H1) as [o1 ->]. simpl. eauto.
Qed.

Section LastWins.

Context `{Interpreter}.
Variables (table column : string).
Variable index : WalRecordsProcessor.t → gmap key WALRow.t.
Hypothesis index_row :
  ∀ self self' record,
    WalRecordsProcessor.load_row self record = Ok self' →
    index self' = index_step (keyed_row table column record) (index self).

Lemma load_last_wins (data : list (list Change.t))
    (self self' : WalRecordsProcessor.t) :
  WalRecordsProcessor.load self data = Ok self' →
  ∀ k, index self' !! k = index_after table column data (index self) k.
Proof.
  unfold WalRecordsProcessor.load, index_after. revert self.
  induction data as [|record data IH]; intros self; simpl.
  - by intros [= <-].
  - rewrite bind_ok. intros (s1 & H1 & Hrest) k.
    rewrite (IH _ Hrest k), (index_row _ _ _ H1).
    destruct (last_occurrence table column k data); [done|].
    destruct (keyed_row table column record) as [[k' row]|]; simpl; [|done].
    case_decide as Hk; [subst; by rewrite lookup_insert_eq|].
    by rewrite lookup_insert_ne.
Qed.

Lemma load_again_same (data : list (list Change.t))
    (self self' self'' : WalRecordsProcessor.t) :
  WalRecordsProcessor.load self data = Ok self' →
  WalRecordsProcessor.load self' data = Ok self'' →
  index self'' = index self'.
Proof.
  intros H1 H2. apply map_eq. intros k.
  rewrite (load_last_wins _ _ _ H2 k).
  pose proof (load_last_wins _ _ _ H1 k) as Hk. unfold index_after in *.
  by destruct (last_occurrence table column k data).
Qed.

End LastWins.

(** The last record of a batch that stands for a key decides its entry,
    whatever came before. *)
Lemma last_occurrence_snoc `{Interpreter} (table column : string) (k : key)
    (row : WALRow.t) (data : list (list Change.t)) (record : list Change.t) :
  keyed_row table column record = Some (k, row) →
  last_occurrence table column k (data ++ [record])%list = Some row.
Proof.
  intros Hr. induction data as [|r data IH]; simpl.
  - rewrite Hr. by rewrite decide_True.
  - by rewrite IH.
Qed.

(** C6: the three indexes after the build phase depend on the batch only
    through the last occurrence of each join key per table.  After [load]
    of [data], the entry of every key in each index is the row of the last
    record of [data] that stands for this key in this table, and the entry
    the index had before when no record does; a record at the end of a batch
    that stands for a key decides the entry of that key, whatever the
    earlier records were.  Running [load] on the same batch again returns,
    and leaves the three indexes as they are. *)
Theorem indexes_keep_last_occurrence `{Interpreter}
    (self self' : WalRecordsProcessor.t) (data : list (list Change.t)) :
  WalRecordsProcessor.load self data = Ok self' →
  (∀ k, WalRecordsProcessor.transaction_rows self' !! k =
        index_after "transaction" "transaction_id" data
          (WalRecordsProcessor.transaction_rows self) k) ∧
  (∀ k, WalRecordsProcessor.transaction_request_rows self' !! k =
        index_after "transaction_request" "flow_id" data
          (WalRecordsProcessor.transaction_request_rows self) k) ∧
  (∀ k, WalRecordsProcessor.payment_instrument_token_data_rows self' !! k =
        index_after "payment_instrument_token_data" "token_id" data
          (WalRecordsProcessor.payment_instrument_token_data_rows self) k) ∧
  (∀ table column earlier record k row before,
     keyed_row table column record = Some (k, row) →
     index_after table column (earlier ++ [record])%list before k = Some row) ∧
  ∃ self'',
    WalRecordsProcessor.load self' data = Ok self'' ∧
    WalRecordsProcessor.transaction_rows self''
      = WalRecordsProcessor.transaction_rows self' ∧
    WalRecordsProcessor.transaction_request_rows self''
      = WalRecordsProcessor.transaction_request_rows self' ∧
    WalRecordsProcessor.payment_instrument_token_data_rows self''
      = WalRecordsProcessor.payment_instrument_token_data_rows self'.
Proof.
  intros Hload.
  assert (H1 := λ s s' r Hr, proj1 (load_row_indexes s s' r Hr)).
  assert (H2 := λ s s' r Hr, proj1 (proj2 (load_row_indexes s s' r Hr))).
  assert (H3 := λ s s' r Hr, proj2 (proj2 (load_row_indexes s s' r Hr))).
  split; [by apply (load_last_wins _ _ _ H1)|].
  split; [by apply (load_last_wins _ _ _ H2)|].
  split; [by apply (load_last_wins _ _ _ H3)|].
  split.
  - intros table column earlier record k row before Hr. unfold index_after.
    by rewrite (last_occurrence_snoc _ _ _ _ _ _ Hr).
  - destruct (load_ok_any _ _ _ self' Hload) as [self'' H'].
    exists self''. split; [done|].
    split; [by apply (load_again_same _ _ _ H1 data self)|].
    split; [by apply (load_again_same _ _ _ H2 data self)|].
    by apply (load_again_same _ _ _ H3 data self).
Qed.

Lemma indexes_keep_last_occurrence_witness :
  WalRecordsProcessor.transaction_rows (loaded duplicate_key_batch) !! KInt 2
    = index_after "transaction" "transaction_id" duplicate_key_batch ∅ (KInt 2)
  ∧ WALRow.column_values <$>
      WalRecordsProcessor.transaction_rows (loaded duplicate_key_batch)
        !! KInt 2 = Some [VInt 2; VStr "refund"].
Proof.
  split; [|vm_compute; reflexivity].
  refine (proj1 (indexes_keep_last_occurrence WalRecordsProcessor.new
                   (loaded duplicate_key_batch) duplicate_key_batch _)
            (KInt 2)).
  vm_compute. reflexivity.
Defined.

Lemma for_each_raises {S A : Type} (f : S → A → result S) (xs : list A)
    (x : A) (s : S) :
  x ∈ xs → (∀ s', raises (f s' x)) → raises (for_each f xs s).
Proof.
  intros Hx Hf. revert s. induction xs as [|y xs IH]; intros s; simpl.
  - by apply elem_of_nil in Hx.
  - apply raises_bind. destruct (f s y) as [s'|e] eqn:Hy; [right | by left].
    exists s'. split; [done|].
    apply elem_of_cons in Hx as [-> | Hx]; [|by apply IH].
    specialize (Hf s). by rewrite Hy in Hf.
Qed.

(** A record of an indexed table without the key column ends the loop of
    [load]: with the exception of the decode when parsing the record
    raises, and with the [ValueError] of the missing column otherwise. *)
Lemma load_row_keyless `{Interpreter} (self : WalRecordsProcessor.t)
    (change : Change.t) (rest : list Change.t) (table column : string)
    (get_join_key : WALRow.t → result value) :
  (table, column, get_join_key) ∈ variants →
  Change.table change = table →
  column ∉ Change.columnnames change →
  WalRecordsProcessor.load_row self (change :: rest) =
    match WALRow.from_dict change with
    | Ok _ => Raise ValueError
    | Raise e => Raise e
    end.
Proof.
  intros Hv Ht Hc. unfold WalRecordsProcessor.load_row. simpl.
  destruct self as [events transactions requests tokens insertable log].
  unfold variants in Hv.
  repeat (apply elem_of_cons in Hv as [[= -> -> ->] | Hv]);
    [..| by apply elem_of_nil in Hv]; rewrite Ht; simpl;
    (destruct (WALRow.from_dict change) as [row|] eqn:Hrow; [simpl|done]);
    apply from_dict_columns in Hrow as (_ & Hnames & _);
    rewrite <- Hnames in Hc.
  - unfold TransactionsRow.get_join_key. by rewrite join_key_absent.
  - unfold TransactionRequestsRow.get_join_key. by rewrite join_key_absent.
  - unfold PaymentInstrumentTokenDataRow.get_join_key.
    by rewrite join_key_absent.
Qed.

(** C10, as the code has it: the join key of a record of an indexed
    table.  [get_join_key] returns only when the key column is among
    [column_names]; it then reads [column_values] at the first position of
    the column, returns the element there, and raises [IndexError] when
    [column_values] is too short to have one, which cannot happen when the
    two sequences have the same length.  Without the column it raises
    [ValueError]; [load] of a batch that holds such a record raises, and it
    raises at that record when the records before it were loaded: the
    [ValueError] of the join key when the record itself is parsed, and
    otherwise the exception the decode of one of its column values raises.
    The record is not skipped. *)
Theorem join_key_needs_its_column `{Interpreter} (table column : string)
    (get_join_key : WALRow.t → result value) :
  (table, column, get_join_key) ∈ variants →
  (∀ row v, get_join_key row = Ok v → column ∈ WALRow.column_names row) ∧
  (∀ row i,
     WALRow.column_names row !! i = Some column →
     (∀ j, (j < i)%nat → WALRow.column_names row !! j ≠ Some column) →
     get_join_key row =
       match WALRow.column_values row !! i with
       | Some v => Ok v
       | None => Raise IndexError
       end) ∧
  (∀ row, column ∈ WALRow.column_names row →
          length (WALRow.column_names row) = length (WALRow.column_values row) →
          ∃ v, get_join_key row = Ok v) ∧
  (∀ row, column ∉ WALRow.column_names row →
          get_join_key row = Raise ValueError) ∧
  (∀ self data change rest,
     (change :: rest) ∈ data →
     Change.table change = table →
     column ∉ Change.columnnames change →
     raises (WalRecordsProcessor.load self data) ∧
     ∀ before after self',
       data = (before ++ (change :: rest) :: after)%list →
       WalRecordsProcessor.load self before = Ok self' →
       WalRecordsProcessor.load self data =
         match WALRow.from_dict change with
         | Ok _ => Raise ValueError
         | Raise e => Raise e
         end).
Proof.
  intros Hv.
  assert (Hg : get_join_key = WALRow.join_key column).
  { unfold variants in Hv.
    repeat (apply elem_of_cons in Hv as [[= -> -> ->] | Hv]); try done.
    by apply elem_of_nil in Hv. }
  assert (Hat : ∀ row i,
            WALRow.column_names row !! i = Some column →
            (∀ j, (j < i)%nat → WALRow.column_names row !! j ≠ Some column) →
            get_join_key row = list_item (WALRow.column_values row) i).
  { intros row i Hi Hfirst. rewrite Hg. unfold WALRow.join_key.
    by rewrite (proj2 (list_index_ok _ _ _) (conj Hi Hfirst)). }
  split; [|split; [|split; [|split]]].
  - intros row v. rewrite Hg. unfold WALRow.join_key.
    rewrite bind_ok. intros (i & Hi & _).
    apply list_index_ok in Hi as [Hi _]. by eapply list_elem_of_lookup_2.
  - exact Hat.
  - intros row Hc Hlen. destruct (list_index_present _ _ Hc) as [i Hi].
    apply list_index_ok in Hi as [Hn Hfirst].
    destruct (lookup_lt_is_Some_2 (WALRow.column_values row) i) as [v Hval].
    { rewrite <- Hlen. by eapply lookup_lt_Some. }
    exists v. rewrite (Hat row i Hn Hfirst). unfold list_item. by rewrite Hval.
  - intros row Hc. rewrite Hg. by apply join_key_absent.
  - intros self data change rest Hin Ht Hc. split.
    + apply (for_each_raises _ _ _ _ Hin). intros s.
      rewrite (load_row_keyless s change rest _ _ _ Hv Ht Hc).
      by destruct (WALRow.from_dict change).
    + intros before after self' -> Hb. unfold WalRecordsProcessor.load in *.
      rewrite for_each_app, Hb. simpl.
      rewrite (load_row_keyless self' change rest _ _ _ Hv Ht Hc).
      by destruct (WALRow.from_dict change).
Qed.

Lemma join_key_needs_its_column_witness :
  WalRecordsProcessor.load WalRecordsProcessor.new keyless_batch
    = Raise ValueError.
Proof.
  destruct (join_key_needs_its_column "transaction" "transaction_id"
              TransactionsRow.get_join_key) as (_ & _ & _ & _ & Hload).
  { unfold variants. apply elem_of_cons. by left. }
  refine (proj2 (Hload WalRecordsProcessor.new keyless_batch
                   (Change.mk (VStr "insert") (VStr "public") "transaction"
                      ["transaction_type"] [] [VStr "sale"])
                   [] _ _ _)
            [insert_into "event_v2_data" ["event_id"] [VInt 1]] []
            (loaded [insert_into "event_v2_data" ["event_id"] [VInt 1]])
            _ _).
  - unfold keyless_batch, insert_into. apply elem_of_cons. right.
    apply elem_of_cons. by left.
  - reflexivity.
  - simpl. intros Hin.
    repeat (apply elem_of_cons in Hin as [Hin | Hin]; [discriminate|]).
    by apply elem_of_nil in Hin.
  - reflexivity.
  - vm_compute. reflexivity.
Defined.

(** C10, as the specification has it, fails: the row parsed from a payload
    with two column names and one value has the key column among its
    [column_names], and its join key is an [IndexError], which ends [load]. *)
Lemma join_key_raises_with_column_present :
  ∃ row,
    WALRow.from_dict misaligned_change = Ok row ∧
    "transaction_id" ∈ WALRow.column_names row ∧
    TransactionsRow.get_join_key row = Raise IndexError ∧
    WalRecordsProcessor.load WalRecordsProcessor.new [[misaligned_change]]
      = Raise IndexError.
Proof.
  eexists. split; [vm_compute; reflexivity|]. simpl.
  split; [|split; vm_compute; reflexivity].
  apply elem_of_cons. right. apply elem_of_cons. by left.
Qed.

(** * Further properties *)

(** ** One turn of the loop of [load] *)

Lemma list_index_raises (xs : list string) (x : string) (e : exn) :
  list_index xs x = Raise e → e = ValueError.
Proof.
  induction xs as [|y xs IH]; simpl; [by intros [= <-]|].
  destruct (String.eqb y x); [done|].
  destruct (list_index xs x); simpl; [done | exact IH].
Qed.

Lemma hash_key_cases (v : value) :
  if hashable v then ∃ k, hash_key v = Ok k else hash_key v = Raise TypeError.
Proof. destruct v; simpl; eauto. Qed.

Lemma load_row_result `{Interpreter} (self : WalRecordsProcessor.t)
    (record : list Change.t) :
  WalRecordsProcessor.load_row self record =
  match record_error record with
  | Some e => Raise e
  | None => Ok (after_record self record)
  end.
Proof.
  destruct record as [|c rest]; [done|].
  unfold WalRecordsProcessor.load_row, after_record, record_error, key_error,
    keyed_row, event_row, unknown_warning, known_table, key_column. simpl.
  destruct self as [events transactions requests tokens insertable log].
  pose proof (from_dict_spec c) as Hs.
  destruct (first_error _ _) as [e|].
  { rewrite Hs. by_table c; try done.
    repeat match goal with
           | H : _ ≠ _ |- _ => apply String.eqb_neq in H; rewrite H
           end.
    simpl. by rewrite app_nil_r. }
  destruct Hs as (decoded & _ & Hrow). rewrite Hrow. simpl.
  unfold TransactionsRow.get_join_key, TransactionRequestsRow.get_join_key,
    PaymentInstrumentTokenDataRow.get_join_key, WALRow.join_key, index_set,
    list_item.
  simpl. by_table c.
  - by rewrite !app_nil_r.
  - destruct (list_index (Change.columnnames c) "transaction_id")
      as [i|e] eqn:Hi; simpl; [|by rewrite (list_index_raises _ _ _ Hi)].
    destruct (Change.columnvalues c !! i) as [v|]; simpl; [|done].
    pose proof (hash_key_cases v) as Hv.
    destruct (hashable v); [destruct Hv as [k ->] | rewrite Hv]; simpl;
      [by rewrite !app_nil_r | done].
  - destruct (list_index (Change.columnnames c) "flow_id")
      as [i|e] eqn:Hi; simpl; [|by rewrite (list_index_raises _ _ _ Hi)].
    destruct (Change.columnvalues c !! i) as [v|]; simpl; [|done].
    pose proof (hash_key_cases v) as Hv.
    destruct (hashable v); [destruct Hv as [k ->] | rewrite Hv]; simpl;
      [by rewrite !app_nil_r | done].
  - destruct (list_index (Change.columnnames c) "token_id")
      as [i|e] eqn:Hi; simpl; [|by rewrite (list_index_raises _ _ _ Hi)].
    destruct (Change.columnvalues c !! i) as [v|]; simpl; [|done].
    pose proof (hash_key_cases v) as Hv.
    destruct (hashable v); [destruct Hv as [k ->] | rewrite Hv]; simpl;
      [by rewrite !app_nil_r | done].
  - repeat match goal with
           | H : _ ≠ _ |- _ => apply String.eqb_neq in H; rewrite H
           end.
    simpl. by rewrite app_nil_r.
Qed.

Lemma load_result `{Interpreter} (data : list (list Change.t))
    (self : WalRecordsProcessor.t) :
  WalRecordsProcessor.load self data =
  match batch_error data with
  | Some e => Raise e
  | None => Ok (foldl after_record self data)
  end.
Proof.
  unfold WalRecordsProcessor.load. revert self.
  induction data as [|record data IH]; intros self; simpl; [done|].
  rewrite load_row_result. destruct (record_error record); simpl; [done|].
  apply IH.
Qed.

Lemma batch_error_none `{Interpreter} (data : list (list Change.t)) :
  batch_error data = None ↔ Forall (λ record, record_error record = None) data.
Proof.
  induction data as [|record data IH]; simpl; [by split; [constructor|]|].
  rewrite Forall_cons. destruct (record_error record); [|naive_solver].
  split; [done | by intros [? _]].
Qed.

Lemma batch_error_first `{Interpreter} (before after : list (list Change.t))
    (record : list Change.t) (e : exn) :
  Forall (λ record, record_error record = None) before →
  record_error record = Some e →
  batch_error (before ++ record :: after) = Some e.
Proof.
  intros Hb He. induction Hb as [|r before Hr _ IH]; simpl; [by rewrite He|].
  by rewrite Hr.
Qed.

Lemma record_error_kinds `{Interpreter} (record : list Change.t) (e : exn) :
  record_error record = Some e →
  e = IndexError ∨ e = ValueError ∨ e = TypeError ∨ e = RecursionError.
Proof.
  unfold record_error, key_error.
  destruct record as [|c rest]; [intros [= <-]; eauto|].
  destruct (known_table _); [|done].
  pose proof (from_dict_spec c) as Hs.
  destruct (first_error _ _) as [e'|].
  { intros [= ->]. apply from_dict_raises in Hs as [_ [-> | ->]]; eauto. }
  destruct (key_column _); [|done].
  destruct (list_index _ _); [|intros [= <-]; eauto].
  destruct (_ !! _) as [v|]; [|intros [= <-]; eauto].
  destruct (hashable v); [done | intros [= <-]; eauto].
Qed.

Lemma batch_error_kinds `{Interpreter} (data : list (list Change.t))
    (e : exn) :
  batch_error data = Some e →
  e = IndexError ∨ e = ValueError ∨ e = TypeError ∨ e = RecursionError.
Proof.
  induction data as [|record data IH]; simpl; [done|].
  destruct (record_error record) eqn:Hr; [|exact IH].
  intros [= <-]. by eapply record_error_kinds.
Qed.

(** X1: what makes [load] fail, on a batch whose records have a change
    list of payloads with the six fields.  [load] returns exactly when no
    record of the batch has an error: an empty change list; for a record of
    one of the four tables, a column value on which the decode raises; for
    a record of an indexed table, a missing key column, no value at its
    position, or an unhashable value there.  Otherwise it raises the error
    of the first such record, whatever the processor holds and whatever
    follows the record; the error is an [IndexError], a [ValueError], a
    [TypeError] or a [RecursionError]. *)
Theorem load_fails_at_first_bad_record `{Interpreter}
    (self : WalRecordsProcessor.t) (data : list (list Change.t)) :
  ((∃ self', WalRecordsProcessor.load self data = Ok self') ↔
   Forall (λ record, record_error record = None) data) ∧
  (∀ before record after e,
     data = (before ++ record :: after)%list →
     Forall (λ record, record_error record = None) before →
     record_error record = Some e →
     WalRecordsProcessor.load self data = Raise e) ∧
  (∀ e, WalRecordsProcessor.load self data = Raise e →
        e = IndexError ∨ e = ValueError ∨ e = TypeError ∨
        e = RecursionError).
Proof.
  rewrite load_result. split; [|split].
  - rewrite <- batch_error_none. destruct (batch_error data); split; eauto.
    + by intros [? ?].
    + done.
  - intros before record after e -> Hb He.
    by rewrite (batch_error_first _ _ _ _ Hb He).
  - intros e. destruct (batch_error data) as [e'|] eqn:Hb; [|done].
    intros [= <-]. by eapply batch_error_kinds.
Qed.

(** ** The containers after [load] *)

Lemma after_batch_events `{Interpreter} (data : list (list Change.t))
    (self : WalRecordsProcessor.t) :
  WalRecordsProcessor.event_v2_data_rows (foldl after_record self data)
    = (WalRecordsProcessor.event_v2_data_rows self ++ omap event_row data)%list
  ∧ WalRecordsProcessor.insertable_rows (foldl after_record self data)
    = WalRecordsProcessor.insertable_rows self
  ∧ WalRecordsProcessor.warnings (foldl after_record self data)
    = (WalRecordsProcessor.warnings self ++ omap unknown_warning data)%list.
Proof.
  revert self. induction data as [|record data IH]; intros self; simpl.
  - by rewrite !app_nil_r.
  - destruct (IH (after_record self record)) as (-> & -> & ->). simpl.
    rewrite <- !app_assoc.
    by destruct (event_row record), (unknown_warning record).
Qed.

(** X2: [load] keeps the Event rows in input order.  After a [load]
    that returns, the event list is the list before followed by the rows of
    the Event records of the batch, in the order of the batch; no record of
    another table adds to it, and [insertable_rows] is untouched. *)
Theorem load_appends_events_in_order `{Interpreter}
    (self self' : WalRecordsProcessor.t) (data : list (list Change.t)) :
  WalRecordsProcessor.load self data = Ok self' →
  WalRecordsProcessor.event_v2_data_rows self'
    = (WalRecordsProcessor.event_v2_data_rows self ++ omap event_row data)%list
  ∧ WalRecordsProcessor.insertable_rows self'
    = WalRecordsProcessor.insertable_rows self.
Proof.
  rewrite load_result. destruct (batch_error data); [done|].
  intros [= <-]. destruct (after_batch_events data self) as (? & ? & _).
  by split.
Qed.

Lemma load_appends_events_in_order_witness :
  WalRecordsProcessor.event_v2_data_rows (loaded sample_batch)
    = omap event_row sample_batch
  ∧ WalRecordsProcessor.insertable_rows (loaded sample_batch) = [].
Proof.
  apply (load_appends_events_in_order WalRecordsProcessor.new
           (loaded sample_batch) sample_batch).
  vm_compute. reflexivity.
Defined.



Lemma record_error_known `{Interpreter} (record : list Change.t) :
  of_known_table record = false → record_error record = None.
Proof.
  unfold of_known_table, unknown_warning, record_error, known_table, key_column.
  destruct record as [|c rest]; [done|].
  destruct (String.eqb (Change.table c) "event_v2_data"),
    (String.eqb (Change.table c) "transaction"),
    (String.eqb (Change.table c) "transaction_request"),
    (String.eqb (Change.table c) "payment_instrument_token_data"); done.
Qed.

Lemma batch_error_filter `{Interpreter} (data : list (list Change.t)) :
  batch_error (filter (λ r, of_known_table r = true) data) = batch_error data.
Proof.
  induction data as [|record data IH]; [done|].
  rewrite filter_cons. destruct (of_known_table record) eqn:Hk.
  - rewrite decide_True by done. simpl. by rewrite IH.
  - rewrite decide_False by done. simpl.
    by rewrite (record_error_known _ Hk).
Qed.

Lemma after_unknown_record `{Interpreter} (self : WalRecordsProcessor.t)
    (record : list Change.t) :
  of_known_table record = false →
  event_row record = None ∧
  ∀ table column, key_column table = Some column →
                  keyed_row table column record = None.
Proof.
  unfold of_known_table, unknown_warning, event_row, keyed_row, known_table,
    key_column.
  destruct record as [|c rest]; [done|].
  destruct (String.eqb_spec (Change.table c) "event_v2_data"); [done|].
  destruct (String.eqb_spec (Change.table c) "transaction"); [done|].
  destruct (String.eqb_spec (Change.table c) "transaction_request"); [done|].
  destruct (String.eqb_spec (Change.table c) "payment_instrument_token_data");
    [done|].
  intros _. split; [done|]. intros table column.
  destruct (String.eqb_spec table "transaction") as [->|_].
  { intros _. by rewrite (proj2 (String.eqb_neq _ _)). }
  destruct (String.eqb_spec table "transaction_request") as [->|_].
  { intros _. by rewrite (proj2 (String.eqb_neq _ _)). }
  destruct (String.eqb_spec table "payment_instrument_token_data") as [->|_].
  { intros _. by rewrite (proj2 (String.eqb_neq _ _)). }
  done.
Qed.

Lemma after_batch_filter `{Interpreter} (data : list (list Change.t))
    (self other : WalRecordsProcessor.t) :
  WalRecordsProcessor.event_v2_data_rows self
    = WalRecordsProcessor.event_v2_data_rows other →
  WalRecordsProcessor.transaction_rows self
    = WalRecordsProcessor.transaction_rows other →
  WalRecordsProcessor.transaction_request_rows self
    = WalRecordsProcessor.transaction_request_rows other →
  WalRecordsProcessor.payment_instrument_token_data_rows self
    = WalRecordsProcessor.payment_instrument_token_data_rows other →
  let full := foldl after_record self data in
  let known :=
    foldl after_record other (filter (λ r, of_known_table r = true) data) in
  WalRecordsProcessor.event_v2_data_rows full
    = WalRecordsProcessor.event_v2_data_rows known ∧
  WalRecordsProcessor.transaction_rows full
    = WalRecordsProcessor.transaction_rows known ∧
  WalRecordsProcessor.transaction_request_rows full
    = WalRecordsProcessor.transaction_request_rows known ∧
  WalRecordsProcessor.payment_instrument_token_data_rows full
    = WalRecordsProcessor.payment_instrument_token_data_rows known.
Proof.
  revert self other. induction data as [|record data IH];
    intros self other He Ht Hr Hp; [done|].
  rewrite filter_cons. destruct (of_known_table record) eqn:Hk.
  - rewrite decide_True by done. simpl. apply IH; simpl; congruence.
  - rewrite decide_False by done. simpl.
    destruct (after_unknown_record self record Hk) as [Hev Hkey].
    apply IH; simpl;
      rewrite ?Hev, ?(Hkey "transaction" "transaction_id" eq_refl),
        ?(Hkey "transaction_request" "flow_id" eq_refl),
        ?(Hkey "payment_instrument_token_data" "token_id" eq_refl),
        ?app_nil_r; done.
Qed.

Lemma omap_unknown_warning_filter (data : list (list Change.t)) :
  omap unknown_warning (filter (λ r, of_known_table r = true) data) = [].
Proof.
  induction data as [|record data IH]; [done|].
  rewrite filter_cons. destruct (of_known_table record) eqn:Hk.
  - rewrite decide_True by done.
    set (known := filter _ data) in *. unfold of_known_table in Hk.
    simpl. destruct (unknown_warning record); [done | exact IH].
  - by rewrite decide_False by done.
Qed.

(** X4: records of unknown tables are noise.  When [load] of a batch
    returns, [load] of the batch without its records of unknown tables
    returns too, with the same event list and the same three indexes and
    without a warning; the full batch leaves one warning per such record,
    in input order, naming its table. *)
Theorem load_ignores_unknown_tables `{Interpreter}
    (self self' : WalRecordsProcessor.t) (data : list (list Change.t)) :
  WalRecordsProcessor.load self data = Ok self' →
  WalRecordsProcessor.warnings self'
    = (WalRecordsProcessor.warnings self ++ omap unknown_warning data)%list ∧
  ∃ known,
    WalRecordsProcessor.load self (filter (λ r, of_known_table r = true) data)
      = Ok known ∧
    WalRecordsProcessor.warnings known = WalRecordsProcessor.warnings self ∧
    WalRecordsProcessor.event_v2_data_rows known
      = WalRecordsProcessor.event_v2_data_rows self' ∧
    WalRecordsProcessor.transaction_rows known
      = WalRecordsProcessor.transaction_rows self' ∧
    WalRecordsProcessor.transaction_request_rows known
      = WalRecordsProcessor.transaction_request_rows self' ∧
    WalRecordsProcessor.payment_instrument_token_data_rows known
      = WalRecordsProcessor.payment_instrument_token_data_rows self'.
Proof.
  rewrite !load_result, batch_error_filter.
  destruct (batch_error data); [done|]. intros [= <-].
  split; [apply after_batch_events|]. eexists. split; [done|].
  destruct (after_batch_events
              (filter (λ r, of_known_table r = true) data) self)
    as (_ & _ & ->).
  rewrite omap_unknown_warning_filter, app_nil_r. split; [done|].
  destruct (after_batch_filter data self self) as (-> & -> & -> & ->); done.
Qed.

Lemma load_ignores_unknown_tables_witness :
  WalRecordsProcessor.warnings (loaded sample_batch)
    = ["Unknown table: audit_log"] ∧
  ∃ known,
    WalRecordsProcessor.load WalRecordsProcessor.new
      (filter (λ r, of_known_table r = true) sample_batch) = Ok known ∧
    WalRecordsProcessor.warnings known = [] ∧
    WalRecordsProcessor.event_v2_data_rows known
      = WalRecordsProcessor.event_v2_data_rows (loaded sample_batch) ∧
    WalRecordsProcessor.transaction_rows known
      = WalRecordsProcessor.transaction_rows (loaded sample_batch) ∧
    WalRecordsProcessor.transaction_request_rows known
      = WalRecordsProcessor.transaction_request_rows (loaded sample_batch) ∧
    WalRecordsProcessor.payment_instrument_token_data_rows known
      = WalRecordsProcessor.payment_instrument_token_data_rows
          (loaded sample_batch).
Proof.
  apply (load_ignores_unknown_tables WalRecordsProcessor.new
           (loaded sample_batch) sample_batch).
  vm_compute. reflexivity.
Defined.

Lemma keyed_row_filed `{Interpreter} (table column : string)
    (record : list Change.t) (k : key) (row : WALRow.t) :
  keyed_row table column record = Some (k, row) →
  WALRow.table row = table ∧ WALRow.join_key column row ≫= hash_key = Ok k.
Proof.
  unfold keyed_row. destruct record as [|c rest]; [done|].
  destruct (String.eqb_spec (Change.table c) table) as [Ht|]; [|done].
  destruct (WALRow.from_dict c) as [row'|] eqn:Hrow; [|done].
  apply from_dict_columns in Hrow as (Htable & _).
  destruct (WALRow.join_key column row' ≫= hash_key) as [k'|] eqn:Hk; [|done].
  intros [= <- <-]. split; [congruence | done].
Qed.

Lemma index_step_filed `{Interpreter} (table column : string)
    (record : list Change.t) (index : gmap key WALRow.t) :
  filed_by_join_key table column index →
  filed_by_join_key table column
    (index_step (keyed_row table column record) index).
Proof.
  intros Hf. destruct (keyed_row table column record) as [[k row]|] eqn:Hk;
    simpl; [|done].
  intros k' row'. destruct (decide (k = k')) as [<-|Hne].
  - rewrite lookup_insert_eq. intros [= <-]. by eapply keyed_row_filed.
  - rewrite lookup_insert_ne by done. apply Hf.
Qed.

Lemma after_batch_filed `{Interpreter} (data : list (list Change.t))
    (self : WalRecordsProcessor.t) :
  filed_by_join_key "transaction" "transaction_id"
    (WalRecordsProcessor.transaction_rows self) →
  filed_by_join_key "transaction_request" "flow_id"
    (WalRecordsProcessor.transaction_request_rows self) →
  filed_by_join_key "payment_instrument_token_data" "token_id"
    (WalRecordsProcessor.payment_instrument_token_data_rows self) →
  filed_by_join_key "transaction" "transaction_id"
    (WalRecordsProcessor.transaction_rows (foldl after_record self data)) ∧
  filed_by_join_key "transaction_request" "flow_id"
    (WalRecordsProcessor.transaction_request_rows
       (foldl after_record self data)) ∧
  filed_by_join_key "payment_instrument_token_data" "token_id"
    (WalRecordsProcessor.payment_instrument_token_data_rows
       (foldl after_record self data)).
Proof.
  revert self. induction data as [|record data IH]; intros self H1 H2 H3;
    [done|].
  simpl. apply IH; simpl; by apply index_step_filed.
Qed.

(** X5: [load] keeps every index filed by join key.  If, before, each
    row of an index is a row of that index's table filed under the hash of
    its own join key, the same holds after a [load] that returns; it holds
    for the indexes [load] builds on a new processor. *)
Theorem load_keeps_indexes_filed `{Interpreter}
    (self self' : WalRecordsProcessor.t) (data : list (list Change.t)) :
  WalRecordsProcessor.load self data = Ok self' →
  filed_by_join_key "transaction" "transaction_id"
    (WalRecordsProcessor.transaction_rows self) →
  filed_by_join_key "transaction_request" "flow_id"
    (WalRecordsProcessor.transaction_request_rows self) →
  filed_by_join_key "payment_instrument_token_data" "token_id"
    (WalRecordsProcessor.payment_instrument_token_data_rows self) →
  filed_by_join_key "transaction" "transaction_id"
    (WalRecordsProcessor.transaction_rows self') ∧
  filed_by_join_key "transaction_request" "flow_id"
    (WalRecordsProcessor.transaction_request_rows self') ∧
  filed_by_join_key "payment_instrument_token_data" "token_id"
    (WalRecordsProcessor.payment_instrument_token_data_rows self').
Proof.
  rewrite load_result. destruct (batch_error data); [done|].
  intros [= <-]. apply after_batch_filed.
Qed.

Lemma load_keeps_indexes_filed_witness :
  filed_by_join_key "transaction" "transaction_id"
    (WalRecordsProcessor.transaction_rows (loaded sample_batch)) ∧
  filed_by_join_key "transaction_request" "flow_id"
    (WalRecordsProcessor.transaction_request_rows (loaded sample_batch)) ∧
  filed_by_join_key "payment_instrument_token_data" "token_id"
    (WalRecordsProcessor.payment_instrument_token_data_rows
       (loaded sample_batch)).
Proof.
  apply (load_keeps_indexes_filed WalRecordsProcessor.new
           (loaded sample_batch) sample_batch);
    [vm_compute; reflexivity | intros k row Hk; simpl in Hk;
                               by rewrite lookup_empty in Hk ..].
Defined.

(** ** The join phase, further *)

Lemma index_get_raises {A : Type} (index : gmap key A) (v : value) (e : exn) :
  index_get index v = Raise e → e = TypeError.
Proof. unfold index_get. destruct v; simpl; congruence. Qed.

Lemma merge_row_raises (self : WalRecordsProcessor.t) (ev : WALRow.t) (e : exn) :
  WalRecordsProcessor.merge_row self ev = Raise e →
  e = TypeError ∧ keys_hashable self ev = false.
Proof.
  intros He. split.
  - rewrite merge_row_spec in He.
    destruct (index_get (WalRecordsProcessor.transaction_rows self) _)
      as [tx|e1] eqn:H1; simpl in He;
      [|injection He as <-; by eapply index_get_raises].
    destruct (index_get (WalRecordsProcessor.transaction_request_rows self) _)
      as [tr|e2] eqn:H2; simpl in He;
      [|injection He as <-; by eapply index_get_raises].
    destruct tr as [request|]; simpl in He; [|done].
    destruct (index_get
                (WalRecordsProcessor.payment_instrument_token_data_rows self) _)
      as [p|e3] eqn:H3; simpl in He; [done|].
    injection He as <-. by eapply index_get_raises.
  - destruct (keys_hashable self ev) eqn:Hk; [|done].
    apply merge_row_ok_iff in Hk as [row Hrow]. congruence.
Qed.

Lemma list_comprehension_raises {A B : Type} (f : A → result B) (xs : list A)
    (e : exn) :
  list_comprehension f xs = Raise e → ∃ x, x ∈ xs ∧ f x = Raise e.
Proof.
  induction xs as [|x xs IH]; simpl; [done|].
  destruct (f x) as [y|e'] eqn:Hx; simpl.
  - destruct (list_comprehension f xs); simpl; [done|].
    intros [= <-]. destruct IH as (x' & ? & ?); [done|].
    exists x'. split; [by right | done].
  - intros [= <-]. exists x. split; [by left | done].
Qed.

Lemma list_comprehension_ok_inv {A B : Type} (f : A → result B) (xs : list A)
    (ys : list B) (x : A) :
  list_comprehension f xs = Ok ys → x ∈ xs → ∃ y, f x = Ok y.
Proof.
  revert ys. induction xs as [|x' xs IH]; intros ys; simpl.
  - intros _ Hx. by apply elem_of_nil in Hx.
  - destruct (f x') as [y'|] eqn:Hx'; simpl; [|done].
    destruct (list_comprehension f xs) as [ys'|]; simpl; [|done].
    intros _ Hx. apply elem_of_cons in Hx as [-> | Hx]; [eauto|].
    by eapply IH.
Qed.

(** X6: what makes the join phase fail.  [merge_insertable_rows]
    returns exactly when the lookup keys of every event are hashable; the
    only exception it raises is the [TypeError] of a lookup with a list or
    a dict as key, and it raises it for some event whose keys are not
    hashable.  Building the [InsertableRow] never fails. *)
Theorem merge_fails_only_on_unhashable_key (self : WalRecordsProcessor.t) :
  ((∃ self', WalRecordsProcessor.merge_insertable_rows self = Ok self') ↔
   forallb (keys_hashable self) (WalRecordsProcessor.event_v2_data_rows self)
     = true) ∧
  (∀ e, WalRecordsProcessor.merge_insertable_rows self = Raise e →
        e = TypeError ∧
        ∃ ev, ev ∈ WalRecordsProcessor.event_v2_data_rows self ∧
              keys_hashable self ev = false) ∧
  (∀ ev tx tr p, ∃ row,
     InsertableRow.init (accumulated ev tx tr p) = Ok row).
Proof.
  unfold WalRecordsProcessor.merge_insertable_rows. rewrite merge_rows_spec.
  split; [|split].
  - rewrite forallb_forall. split.
    + intros [self' H] ev Hev. apply merge_row_ok_iff.
      destruct (list_comprehension (WalRecordsProcessor.merge_row self)
                  (WalRecordsProcessor.event_v2_data_rows self))
        as [rows|e'] eqn:Hl; [|done].
      apply list_elem_of_In in Hev.
      by eapply list_comprehension_ok_inv.
    + intros Hall.
      destruct (list_comprehension_ok (WalRecordsProcessor.merge_row self)
                  (WalRecordsProcessor.event_v2_data_rows self))
        as (rows & -> & _); simpl; [|eauto].
      intros ev Hev. apply merge_row_ok_iff, Hall. by apply list_elem_of_In.
  - intros e.
    destruct (list_comprehension (WalRecordsProcessor.merge_row self)
                (WalRecordsProcessor.event_v2_data_rows self))
      as [rows|e'] eqn:Hl; simpl; [done|].
    intros [= <-]. apply list_comprehension_raises in Hl as (ev & Hev & He).
    apply merge_row_raises in He as [-> Hk]. eauto.
  - intros ev tx tr p. eexists. apply init_accumulated.
Qed.

Lemma list_comprehension_ext {A B : Type} (f g : A → result B) (xs : list A) :
  (∀ x, f x = g x) → list_comprehension f xs = list_comprehension g xs.
Proof. intros Hfg. induction xs as [|x xs IH]; simpl; [done|]. by rewrite Hfg, IH. Qed.

Lemma list_comprehension_length {A B : Type} (f : A → result B) (xs : list A)
    (ys : list B) :
  list_comprehension f xs = Ok ys → length ys = length xs.
Proof.
  revert ys. induction xs as [|x xs IH]; intros ys; simpl; [by intros [= <-]|].
  destruct (f x); simpl; [|done].
  destruct (list_comprehension f xs); simpl; [|done].
  intros [= <-]. simpl. f_equal. by apply IH.
Qed.

(** X7: the join phase appends, it does not replace.  Run a second time
    on the processor it returned, [merge_insertable_rows] returns again and
    appends the same Output Rows once more: every Output Row is then in
    [insertable_rows] twice. *)
Theorem merge_again_appends_again
    (self self' : WalRecordsProcessor.t) :
  WalRecordsProcessor.merge_insertable_rows self = Ok self' →
  ∃ rows self'',
    WalRecordsProcessor.insertable_rows self'
      = (WalRecordsProcessor.insertable_rows self ++ rows)%list ∧
    length rows = length (WalRecordsProcessor.event_v2_data_rows self) ∧
    WalRecordsProcessor.merge_insertable_rows self' = Ok self'' ∧
    WalRecordsProcessor.insertable_rows self''
      = (WalRecordsProcessor.insertable_rows self ++ rows ++ rows)%list.
Proof.
  unfold WalRecordsProcessor.merge_insertable_rows. rewrite !merge_rows_spec.
  destruct (list_comprehension (WalRecordsProcessor.merge_row self)
              (WalRecordsProcessor.event_v2_data_rows self))
    as [rows|] eqn:Hl; simpl; [|done].
  intros [= <-]. simpl. exists rows.
  rewrite (list_comprehension_ext _ (WalRecordsProcessor.merge_row self)),
    Hl by (intros ev; by rewrite !merge_row_spec).
  simpl. eexists. repeat split; try done.
  - by eapply list_comprehension_length.
  - by rewrite <- app_assoc.
Qed.

Lemma merge_again_appends_again_witness :
  ∃ rows self'',
    WalRecordsProcessor.insertable_rows (joined sample_batch)
      = (WalRecordsProcessor.insertable_rows (loaded sample_batch)
           ++ rows)%list ∧
    length rows
      = length (WalRecordsProcessor.event_v2_data_rows (loaded sample_batch)) ∧
    WalRecordsProcessor.merge_insertable_rows (joined sample_batch)
      = Ok self'' ∧
    WalRecordsProcessor.insertable_rows self''
      = (WalRecordsProcessor.insertable_rows (loaded sample_batch)
           ++ rows ++ rows)%list.
Proof.
  apply (merge_again_appends_again (loaded sample_batch)
           (joined sample_batch)).
  vm_compute. reflexivity.
Defined.

(** X8: no hop overwrites what only the event produces, and
    [payment_method] comes from the TransactionRequest hop alone.  In the
    Output Row of an event, [event_id], [flow_id] and
    [transaction_lifecycle_event] are the event's columns of these names,
    [decline_reason] and [decline_type] its columns
    [error_details.decline_reason] and [error_details.decline_type], whatever
    the hops matched; [payment_method] is the column
    [vault_options.payment_method] of the TransactionRequest row the event's
    [flow_id] finds, and [None] when it finds none. *)
Theorem event_fields_survive_the_hops
    (self : WalRecordsProcessor.t) (ev : WALRow.t) (row : InsertableRow.t) :
  WalRecordsProcessor.merge_row self ev = Ok row →
  let own := dict_get (WALRow.column_names_values ev) in
  InsertableRow.event_id row = own "event_id" ∧
  InsertableRow.flow_id row = own "flow_id" ∧
  InsertableRow.transaction_lifecycle_event row
    = own "transaction_lifecycle_event" ∧
  InsertableRow.decline_reason row = own "error_details.decline_reason" ∧
  InsertableRow.decline_type row = own "error_details.decline_type" ∧
  ∃ request,
    index_get (WalRecordsProcessor.transaction_request_rows self)
      (own "flow_id") = Ok request ∧
    InsertableRow.payment_method row
      = match request with
        | Some request =>
            dict_get (WALRow.column_names_values request)
              "vault_options.payment_method"
        | None => VNone
        end.
Proof.
  intros H own. invert_merge H tx tr p. repeat split; try done.
  exists tr. by split.
Qed.

Lemma event_fields_survive_the_hops_witness :
  InsertableRow.event_id sample_output = VInt 1 ∧
  InsertableRow.flow_id sample_output = VInt 3 ∧
  InsertableRow.transaction_lifecycle_event sample_output = VNone ∧
  InsertableRow.decline_reason sample_output = VNone ∧
  InsertableRow.decline_type sample_output = VNone ∧
  ∃ request,
    index_get (WalRecordsProcessor.transaction_request_rows
                 (loaded sample_batch)) (VInt 3) = Ok request ∧
    InsertableRow.payment_method sample_output
      = match request with
        | Some request =>
            dict_get (WALRow.column_names_values request)
              "vault_options.payment_method"
        | None => VNone
        end.
Proof.
  apply (event_fields_survive_the_hops (loaded sample_batch)
           (first_event (loaded sample_batch)) sample_output).
  vm_compute. reflexivity.
Defined.

(** ** The derived mapping of a row *)

Lemma dict_of_pairs_lookup_last (ps : list (string * value)) (i : nat)
    (k : string) (v : value) :
  ps !! i = Some (k, v) →
  (∀ j v', (i < j)%nat → ps !! j ≠ Some (k, v')) →
  dict_of_pairs ps !! k = Some v.
Proof.
  revert i. induction ps as [|[k' v'] ps IH] using rev_ind; intros i Hi Hlast;
    [done|].
  rewrite dict_of_pairs_snoc.
  destruct (decide (i < length ps)%nat) as [Hlt|Hge].
  - rewrite lookup_app_l in Hi by done.
    assert (k' ≠ k) as Hne.
    { intros ->. apply (Hlast (length ps) v' Hlt).
      by rewrite lookup_app_r, Nat.sub_diag by lia. }
    rewrite lookup_insert_ne by done. apply (IH i Hi).
    intros j w Hj Hjw. apply (Hlast j w Hj).
    rewrite lookup_app_l; [done|]. by eapply lookup_lt_Some.
  - rewrite lookup_app_r in Hi by lia.
    destruct (i - length ps)%nat eqn:Hd; simpl in Hi; [|done].
    injection Hi as -> ->. by rewrite lookup_insert_eq.
Qed.

Lemma size_dict_of_pairs (ps : list (string * value)) :
  NoDup ps.*1 → size (dict_of_pairs ps) = length ps.
Proof.
  induction ps as [|[k v] ps IH] using rev_ind; intros Hnd;
    [apply map_size_empty|].
  rewrite fmap_app in Hnd. apply NoDup_app in Hnd as (Hps & Hk & _).
  rewrite dict_of_pairs_snoc, length_app. simpl.
  rewrite map_size_insert_None; [rewrite IH by done; lia|].
  apply not_elem_of_dom. rewrite dom_dict_of_pairs, elem_of_list_to_set.
  intros Hin. apply (Hk k Hin). simpl. by left.
Qed.

(** The entry of a column in the derived mapping of a parsed row. *)
Lemma from_dict_lookup `{Interpreter} (data : Change.t) (row : WALRow.t)
    (i : nat) (name : string) (v : value) :
  WALRow.from_dict data = Ok row →
  Change.columnnames data !! i = Some name →
  Change.columnvalues data !! i = Some v →
  (∀ j, (i < j)%nat → (j < length (Change.columnvalues data))%nat →
        Change.columnnames data !! j ≠ Some name) →
  ∃ d, WALRow.transform_to_dict_if_json v = Ok d ∧
       WALRow.column_names_values row !! name = Some d.
Proof.
  intros Hrow Hn Hv Hlast.
  apply from_dict_inv in Hrow as (decoded & Hall & ->). simpl.
  destruct (Forall2_lookup_l _ _ _ _ _ Hall Hv) as (d & Hd & Ht).
  exists d. split; [done|].
  apply (dict_of_pairs_lookup_last _ i).
  - by apply lookup_zip_Some.
  - intros j d' Hj Hjd. apply lookup_zip_Some in Hjd as [Hn' Hd'].
    apply (Hlast j Hj); [|done].
    rewrite (Forall2_length _ _ _ Hall). by eapply lookup_lt_Some.
Qed.

(** X9: the derived mapping of a parsed row.  The entry of a column name
    is the decoded value at the last position, among those that have a
    value, where the name stands; when the names do not repeat and there are
    as many values as names the mapping has exactly one entry per name. *)
Theorem from_dict_mapping_entries `{Interpreter} (data : Change.t)
    (row : WALRow.t) :
  WALRow.from_dict data = Ok row →
  (∀ i name v,
     Change.columnnames data !! i = Some name →
     Change.columnvalues data !! i = Some v →
     (∀ j, (i < j)%nat → (j < length (Change.columnvalues data))%nat →
           Change.columnnames data !! j ≠ Some name) →
     ∃ d, WALRow.transform_to_dict_if_json v = Ok d ∧
          WALRow.column_names_values row !! name = Some d) ∧
  (NoDup (Change.columnnames data) →
   length (Change.columnnames data) = length (Change.columnvalues data) →
   size (WALRow.column_names_values row) = length (Change.columnnames data) ∧
   dom (WALRow.column_names_values row)
     = list_to_set (Change.columnnames data)).
Proof.
  intros Hrow. split.
  - intros i name v. by apply from_dict_lookup.
  - intros Hnd Hlen. apply from_dict_inv in Hrow as (decoded & Hall & ->).
    simpl.
    pose proof (Forall2_length _ _ _ Hall) as Hlen'.
    assert (Hfst : (zip (Change.columnnames data) decoded).*1
                   = Change.columnnames data).
    { rewrite fst_zip_take. apply take_ge. lia. }
    split.
    + rewrite size_dict_of_pairs by by rewrite Hfst.
      rewrite <- Hfst at 2. by rewrite length_fmap.
    + by rewrite dom_dict_of_pairs, Hfst.
Qed.

Lemma from_dict_mapping_entries_witness :
  (∀ i name v,
     Change.columnnames text_amount_change !! i = Some name →
     Change.columnvalues text_amount_change !! i = Some v →
     (∀ j, (i < j)%nat →
           (j < length (Change.columnvalues text_amount_change))%nat →
           Change.columnnames text_amount_change !! j ≠ Some name) →
     ∃ d, WALRow.transform_to_dict_if_json v = Ok d ∧
          dict_of_pairs [("transaction_id", VStr "T-2"); ("amount", VInt 123)]
            !! name = Some d) ∧
  (NoDup (Change.columnnames text_amount_change) →
   length (Change.columnnames text_amount_change)
     = length (Change.columnvalues text_amount_change) →
   size (dict_of_pairs [("transaction_id", VStr "T-2"); ("amount", VInt 123)])
     = length (Change.columnnames text_amount_change) ∧
   dom (dict_of_pairs [("transaction_id", VStr "T-2"); ("amount", VInt 123)])
     = list_to_set (Change.columnnames text_amount_change)).
Proof.
  apply (from_dict_mapping_entries text_amount_change
           (WALRow.mk (VStr "insert") (VStr "public") "transaction"
              ["transaction_id"; "amount"] [] [VStr "T-2"; VStr "123"]
              (dict_of_pairs [("transaction_id", VStr "T-2");
                              ("amount", VInt 123)]))).
  vm_compute. reflexivity.
Defined.

(** X10: the join key of a parsed row against its derived mapping.  For
    a row parsed from a payload whose column names do not repeat, the join
    key is the raw value of the key column, and the derived mapping, which
    the lookups of the join read, has the decoded value of the same column:
    the two are the same value whenever the raw value is not a [str]. *)
Theorem join_key_is_the_raw_column `{Interpreter} (data : Change.t)
    (row : WALRow.t) (column : string) (v : value) :
  WALRow.from_dict data = Ok row →
  NoDup (Change.columnnames data) →
  WALRow.join_key column row = Ok v →
  ∃ d, WALRow.transform_to_dict_if_json v = Ok d ∧
       WALRow.column_names_values row !! column = Some d ∧
       ((∀ s, v ≠ VStr s) →
        dict_get (WALRow.column_names_values row) column = v).
Proof.
  intros Hrow Hnd Hk.
  destruct (from_dict_columns data row Hrow) as (_ & Hnames & Hvalues).
  unfold WALRow.join_key in Hk. rewrite Hnames, Hvalues in Hk.
  apply bind_ok in Hk as (i & Hi & Hv). apply list_index_ok in Hi as [Hi _].
  unfold list_item in Hv.
  destruct (Change.columnvalues data !! i) as [v'|] eqn:Hvi; [|done].
  injection Hv as ->.
  destruct (from_dict_lookup data row i column v Hrow Hi Hvi) as (d & Hd & Hm).
  { intros j Hj _ Hjn.
    pose proof (proj1 (NoDup_alt _) Hnd i j column Hi Hjn). lia. }
  exists d. split; [done|]. split; [done|].
  intros Hs. unfold dict_get. rewrite Hm. simpl.
  rewrite (transform_not_str v Hs) in Hd. by injection Hd as <-.
Qed.

Lemma join_key_is_the_raw_column_witness :
  ∃ d, WALRow.transform_to_dict_if_json (VStr "T-2") = Ok d ∧
       dict_of_pairs [("transaction_id", VStr "T-2"); ("amount", VInt 123)]
         !! "transaction_id" = Some d ∧
       ((∀ s, VStr "T-2" ≠ VStr s) →
        dict_get
          (dict_of_pairs [("transaction_id", VStr "T-2"); ("amount", VInt 123)])
          "transaction_id" = VStr "T-2").
Proof.
  apply (join_key_is_the_raw_column text_amount_change
           (WALRow.mk (VStr "insert") (VStr "public") "transaction"
              ["transaction_id"; "amount"] [] [VStr "T-2"; VStr "123"]
              (dict_of_pairs [("transaction_id", VStr "T-2");
                              ("amount", VInt 123)]))
           "transaction_id" (VStr "T-2")).
  - vm_compute. reflexivity.
  - simpl. apply NoDup_cons. split.
    + intros Hin. apply elem_of_cons in Hin as [Hin | Hin]; [discriminate|].
      by apply elem_of_nil in Hin.
    + apply NoDup_singleton.
  - vm_compute. reflexivity.
Defined.

(** ** Output field names *)

Lemma split_dot_cons (s : string) : ∃ part parts, split_dot s = part :: parts.
Proof.
  induction s as [|c s (part & parts & IH)]; simpl; [eauto|].
  destruct (Ascii.eqb c "."); [eauto|]. rewrite IH. eauto.
Qed.

Lemma split_dot_app (prefix s : string) :
  split_dot (prefix ++ String "." s) = (split_dot prefix ++ split_dot s)%list.
Proof.
  induction prefix as [|c prefix IH]; simpl; [done|].
  destruct (Ascii.eqb c "."); [by rewrite IH|].
  rewrite IH. by destruct (split_dot_cons prefix) as (part & parts & ->).
Qed.

Lemma split_dot_free (s : string) : dot_free s = true → split_dot s = [s].
Proof.
  unfold dot_free. induction s as [|c s IH]; simpl; [done|].
  destruct (Ascii.eqb c "."); simpl; [done|]. intros Hs. by rewrite IH.
Qed.

Lemma last_app_cons {A : Type} (xs ys : list A) (y d : A) :
  List.last (xs ++ y :: ys) d = List.last (y :: ys) d.
Proof.
  induction xs as [|x xs IH]; [done|].
  change ((x :: xs) ++ y :: ys)%list with (x :: (xs ++ y :: ys))%list.
  destruct (xs ++ y :: ys)%list eqn:Hl; [by destruct xs|].
  simpl in *. by rewrite <- IH.
Qed.

Lemma split_dot_parts_free (s : string) :
  Forall (λ part, dot_free part = true) (split_dot s).
Proof.
  induction s as [|c s IH]; simpl; [by repeat constructor|].
  destruct (Ascii.eqb c ".") eqn:Hc; [by constructor|].
  destruct (split_dot s) as [|part parts].
  - constructor; [|constructor]. unfold dot_free. simpl. by rewrite Hc.
  - apply Forall_cons in IH as [Hp Hparts]. constructor; [|done].
    unfold dot_free in *. simpl. by rewrite Hc.
Qed.

Lemma last_segment_free (s : string) : dot_free (last_segment s) = true.
Proof.
  unfold last_segment. pose proof (split_dot_parts_free s) as Hall.
  destruct (split_dot_cons s) as (part & parts & Hs). rewrite Hs in *.
  clear Hs. revert part Hall. induction parts as [|p parts IH]; intros part Hall.
  - by apply Forall_cons in Hall as [? _].
  - apply Forall_cons in Hall as [_ Hall]. by apply IH.
Qed.

(** X11: the name of an output field.  The last dotted segment of a
    column name has no dot; a name without a dot is its own last segment,
    and a dotted prefix before such a name is dropped.  So every key of an
    extraction is free of dots, whatever the keys it is given. *)
Theorem last_segment_drops_the_prefix :
  (∀ s, dot_free (last_segment s) = true) ∧
  (∀ name, dot_free name = true → last_segment name = name) ∧
  (∀ prefix name, dot_free name = true →
                  last_segment (prefix ++ String "." name) = name) ∧
  (∀ keys row field,
     field ∈ dom (WALRow.insertable_values keys row) →
     dot_free field = true).
Proof.
  split; [exact last_segment_free|]. split; [|split].
  - intros name Hn. unfold last_segment. by rewrite (split_dot_free _ Hn).
  - intros prefix name Hn. unfold last_segment.
    by rewrite split_dot_app, (split_dot_free _ Hn), last_app_cons.
  - intros keys row field. rewrite insertable_values_dom, elem_of_list_to_set.
    intros (k & -> & _)%list_elem_of_fmap. apply last_segment_free.
Qed.

(** ** The statements handed to the SQLite client *)

(** X12: the table [create_destination_table] asks for.  Whatever
    Python's [str] is, and with [None] falsy, the statement declares one
    column per field of [InsertableRow], in the order of the fields, every
    one of them [NULL], [INTEGER] for the fields annotated [int] and [TEXT]
    for those annotated [str]: no default value is written into it. *)
Theorem create_destination_table_statement
    (truthy : value → bool) (str : value → string) :
  truthy VNone = false →
  WalRecordsProcessor.create_destination_table truthy str =
    "CREATE TABLE IF NOT EXISTS merged_wal_records (event_id INTEGER NULL, flow_id INTEGER NULL, created_at TEXT NULL, transaction_lifecycle_event TEXT NULL, decline_reason TEXT NULL, decline_type TEXT NULL, payment_method TEXT NULL, transaction_id INTEGER NULL, transaction_type TEXT NULL, amount INTEGER NULL, currency_code TEXT NULL, processor_merchant_account_id INTEGER NULL, three_d_secure_authentication TEXT NULL, payment_instrument_type TEXT NULL, customer_id INTEGER NULL)".
Proof.
  intros Hnone. unfold WalRecordsProcessor.create_destination_table.
  rewrite (map_ext_in _
             (λ field : string * InsertableRow.python_type,
                field.1 ++ " "
                  ++ WalRecordsProcessor.convert_python_type_to_sqlite field.2
                  ++ " NULL")).
  - vm_compute. reflexivity.
  - intros field Hin. cbv zeta.
    replace (dict_get InsertableRow.class_dict field.1) with VNone;
      [by rewrite Hnone|].
    unfold InsertableRow.annotations in Hin. simpl in Hin.
    repeat (destruct Hin as [<- | Hin]; [vm_compute; reflexivity|]).
    destruct Hin.
Qed.

Lemma create_destination_table_statement_witness :
  WalRecordsProcessor.create_destination_table
    (λ v, match v with VNone => false | _ => true end) (λ _, "?") =
    "CREATE TABLE IF NOT EXISTS merged_wal_records (event_id INTEGER NULL, flow_id INTEGER NULL, created_at TEXT NULL, transaction_lifecycle_event TEXT NULL, decline_reason TEXT NULL, decline_type TEXT NULL, payment_method TEXT NULL, transaction_id INTEGER NULL, transaction_type TEXT NULL, amount INTEGER NULL, currency_code TEXT NULL, processor_merchant_account_id INTEGER NULL, three_d_secure_authentication TEXT NULL, payment_instrument_type TEXT NULL, customer_id INTEGER NULL)".
Proof.
  apply (create_destination_table_statement
           (λ v, match v with VNone => false | _ => true end) (λ _, "?")).
  reflexivity.
Defined.


(** ** The steps of the driver *)

Lemma list_comprehension_Forall2 {A B : Type} (f : A → result B)
    (xs : list A) (ys : list B) :
  list_comprehension f xs = Ok ys → Forall2 (λ x y, f x = Ok y) xs ys.
Proof.
  revert ys. induction xs as [|x xs IH]; intros ys; simpl.
  - intros [= <-]. constructor.
  - destruct (f x) as [y|] eqn:Hx; simpl; [|done].
    destruct (list_comprehension f xs) as [ys'|]; simpl; [|done].
    intros [= <-]. constructor; [done | by apply IH].
Qed.



(** ** Build, then join *)

Lemma index_after_new `{Interpreter} (table column : string)
    (data : list (list Change.t)) (k : key) :
  index_after table column data ∅ k = last_occurrence table column k data.
Proof.
  unfold index_after. rewrite lookup_empty.
  by destruct (last_occurrence table column k data).
Qed.

(** X15: the join sees the whole batch.  After [load] of a batch on a
    new processor, each hop of the join of an event finds the row of the
    last record of the batch with that table and key, whether the record
    stands before or after the event in the batch; the Output Row is the
    row joined from these three. *)
Theorem join_uses_last_records_of_the_batch `{Interpreter}
    (data : list (list Change.t)) (self : WalRecordsProcessor.t)
    (ev : WALRow.t) (row : InsertableRow.t) :
  WalRecordsProcessor.load WalRecordsProcessor.new data = Ok self →
  WalRecordsProcessor.merge_row self ev = Ok row →
  let own := dict_get (WALRow.column_names_values ev) in
  let transaction :=
    found_in "transaction" "transaction_id" data (own "transaction_id") in
  let request :=
    found_in "transaction_request" "flow_id" data (own "flow_id") in
  let token :=
    request ≫= λ request,
      found_in "payment_instrument_token_data" "token_id" data
        (dict_get (WALRow.column_names_values request) "token_id") in
  row = joined_row ev transaction request token.
Proof.
  intros Hload Hrow.
  assert (H1 := λ s s' r Hr, proj1 (load_row_indexes s s' r Hr)).
  assert (H2 := λ s s' r Hr, proj1 (proj2 (load_row_indexes s s' r Hr))).
  assert (H3 := λ s s' r Hr, proj2 (proj2 (load_row_indexes s s' r Hr))).
  pose proof (load_last_wins _ _ _ H1 _ _ _ Hload) as Ht.
  pose proof (load_last_wins _ _ _ H2 _ _ _ Hload) as Hr.
  pose proof (load_last_wins _ _ _ H3 _ _ _ Hload) as Hk.
  simpl in Ht, Hr, Hk.
  invert_merge Hrow tx tr p. unfold found_in, token_lookup, index_get in *.
  destruct (hash_key (dict_get (WALRow.column_names_values ev)
                        "transaction_id")) as [k1|]; [|done].
  simpl in Htx. injection Htx as <-. rewrite Ht, index_after_new.
  destruct (hash_key (dict_get (WALRow.column_names_values ev) "flow_id"))
    as [k2|]; [|done].
  simpl in Htr. injection Htr as <-.
  rewrite Hr, index_after_new in Hp |- *.
  destruct (last_occurrence "transaction_request" "flow_id" k2 data)
    as [request|]; simpl in *; [|by injection Hp as <-].
  destruct (hash_key (dict_get (WALRow.column_names_values request)
                        "token_id")) as [k3|]; [|done].
  simpl in Hp. injection Hp as <-. by rewrite Hk, index_after_new.
Qed.

Lemma join_uses_last_records_of_the_batch_witness :
  sample_output =
  joined_row (first_event (loaded sample_batch))
    (found_in "transaction" "transaction_id" sample_batch (VInt 2))
    (found_in "transaction_request" "flow_id" sample_batch (VInt 3))
    (found_in "payment_instrument_token_data" "token_id" sample_batch
       (VInt 4)).
Proof.
  apply (join_uses_last_records_of_the_batch sample_batch
           (loaded sample_batch) (first_event (loaded sample_batch))
           sample_output); vm_compute; reflexivity.
Defined.
